(** * monitor-data-archiver: the 5-minute archiving lambda (src/unnamed/part_001)

    Shallow embedding of the Go program that reads monitor samples from
    DynamoDB, groups them by monitor, cuts each monitor's samples into
    5-minute slots and uploads one JSON file per non-empty slot to S3.

    Go's [time.Time] is modelled as a Unix instant in nanoseconds together
    with the zone offset (seconds east of UTC) that [time.Parse] recorded;
    [Before], [After], [Add] and [Round] act on the instant and keep the
    offset, [Format] prints the instant in that offset, as Go does. *)

From Stdlib Require Import ZArith List String Ascii Bool Lia.
From Stdlib Require Import Sorting.Permutation Sorting.Sorted.
Import ListNotations.
Open Scope Z_scope.
Set Warnings "-register-all".
Open Scope string_scope.
Open Scope Z_scope.


(** ** Go's [time] package *)

Record Time := mkTime { unix_ns : Z; zone_off : Z }.

Definition Duration := Z.
Definition Nanosecond : Duration := 1.
Definition Second : Duration := 1000000000.
Definition Minute : Duration := 60 * Second.

(** [time.Time{}]: January 1, year 1, 00:00:00 UTC, the value [time.Parse]
    returns together with its error. *)
Definition zeroTime : Time := mkTime (-62135596800 * Second) 0.

Definition Before (t u : Time) : bool := unix_ns t <? unix_ns u.
Definition After (t u : Time) : bool := unix_ns u <? unix_ns t.
Definition Add (t : Time) (d : Duration) : Time :=
  mkTime (unix_ns t + d) (zone_off t).

(** [div(t, d)] of time.go: the remainder of the time elapsed since the
    zero time modulo [d] (always in [0, d)). *)
Definition div_rem (t : Time) (d : Duration) : Duration :=
  (unix_ns t - unix_ns zeroTime) mod d.

(** [lessThanHalf(x, y)]: [x + x < y]. *)
Definition lessThanHalf (x y : Duration) : bool := x + x <? y.

(** [func (t Time) Round(d Duration) Time]. *)
Definition Round (t : Time) (d : Duration) : Time :=
  if d <=? 0 then t
  else let r := div_rem t d in
       if lessThanHalf r d then Add t (- r) else Add t (d - r).

(** *** Calendar arithmetic (proleptic Gregorian, as [time] uses) *)

Definition days_from_civil (y m d : Z) : Z :=
  let y' := if m <=? 2 then y - 1 else y in
  let era := y' / 400 in
  let yoe := y' - era * 400 in
  let mp := if 2 <? m then m - 3 else m + 9 in
  let doy := (153 * mp + 2) / 5 + d - 1 in
  let doe := yoe * 365 + yoe / 4 - yoe / 100 + doy in
  era * 146097 + doe - 719468.

(** Year, month and day of a day count inside one 400-year era. *)
Definition civil_in_era (doe : Z) : Z * Z * Z :=
  let yoe := (doe - doe / 1460 + doe / 36524 - doe / 146096) / 365 in
  let doy := doe - (365 * yoe + yoe / 4 - yoe / 100) in
  let mp := (5 * doy + 2) / 153 in
  let d := doy - (153 * mp + 2) / 5 + 1 in
  let m := if mp <? 10 then mp + 3 else mp - 9 in
  ((if m <=? 2 then yoe + 1 else yoe), m, d).

Definition civil_from_days (z : Z) : Z * Z * Z :=
  let z' := z + 719468 in
  let era := z' / 146097 in
  let '(y, m, d) := civil_in_era (z' mod 146097) in
  (era * 400 + y, m, d).

Definition isLeap (y : Z) : bool :=
  (y mod 4 =? 0) && (negb (y mod 100 =? 0) || (y mod 400 =? 0)).

Definition daysIn (m y : Z) : Z :=
  if m =? 2 then (if isLeap y then 29 else 28)
  else if (m =? 4) || (m =? 6) || (m =? 9) || (m =? 11) then 30 else 31.

(** *** [time.Parse(time.RFC3339, s)]

    [time.Parse] first tries the RFC 3339 fast path [parseRFC3339]
    (format_rfc3339.go): [YYYY-MM-DDTHH:MM:SS[.fraction](Z|+hh:mm|-hh:mm)],
    every field range checked.  When that fails it runs the general layout
    parser [parse] (format.go) on the layout ["2006-01-02T15:04:05Z07:00"],
    modelled by [parseLayoutRFC3339]; when both fail it returns
    [time.Time{}] and an error. *)

Definition digit (c : ascii) : option Z :=
  let n := Z.of_nat (nat_of_ascii c) in
  if (48 <=? n) && (n <=? 57) then Some (n - 48) else None.

Fixpoint digits_acc (acc : Z) (cs : list ascii) : option Z :=
  match cs with
  | [] => Some acc
  | c :: cs' =>
      match digit c with
      | Some v => digits_acc (acc * 10 + v) cs'
      | None => None
      end
  end.

(** [parseUint(s[i:i+n], min, max)]. *)
Definition field (cs : list ascii) (i n : nat) (lo hi : Z) : option Z :=
  let f := firstn n (skipn i cs) in
  if Nat.eqb (List.length f) n then
    match digits_acc 0 f with
    | Some v => if (lo <=? v) && (v <=? hi) then Some v else None
    | None => None
    end
  else None.

Definition char_at (cs : list ascii) (i : nat) (c : ascii) : bool :=
  match nth_error cs i with
  | Some c' => Ascii.eqb c c'
  | None => false
  end.

(** Leading digits of the fraction, as nanoseconds. *)
Fixpoint frac_digits (cs : list ascii) : list ascii * list ascii :=
  match cs with
  | c :: cs' =>
      match digit c with
      | Some _ => let '(ds, r) := frac_digits cs' in (c :: ds, r)
      | None => ([], cs)
      end
  | [] => ([], [])
  end.

Definition frac_nanos (ds : list ascii) : Z :=
  let ds9 := firstn 9 (ds ++ repeat "0"%char 9) in
  match digits_acc 0 ds9 with Some v => v | None => 0 end.

Definition parse_zone (cs : list ascii) : option Z :=
  match cs with
  | ["Z"%char] => Some 0
  | [s; h1; h2; ":"%char; m1; m2] =>
      match field [h1; h2] 0 2 0 23, field [m1; m2] 0 2 0 59 with
      | Some hh, Some mm =>
          if Ascii.eqb s "+" then Some (hh * 3600 + mm * 60)
          else if Ascii.eqb s "-" then Some (- (hh * 3600 + mm * 60))
          else None
      | _, _ => None
      end
  | _ => None
  end.

Definition parseRFC3339 (s : string) : option Time :=
  let cs := list_ascii_of_string s in
  if char_at cs 4 "-" && char_at cs 7 "-" && char_at cs 10 "T"
     && char_at cs 13 ":" && char_at cs 16 ":" then
    match field cs 0 4 0 9999, field cs 5 2 1 12 with
    | Some y, Some mo =>
      match field cs 8 2 1 (daysIn mo y), field cs 11 2 0 23,
            field cs 14 2 0 59, field cs 17 2 0 59 with
      | Some d, Some hh, Some mi, Some ss =>
          let rest := skipn 19 cs in
          let '(nsec, zone) :=
            match rest with
            | "."%char :: c :: r =>
                match digit c with
                | Some _ => let '(ds, r') := frac_digits (c :: r) in
                            (frac_nanos ds, r')
                | None => (0, rest)
                end
            | _ => (0, rest)
            end in
          match parse_zone zone with
          | Some off =>
              let secs := days_from_civil y mo d * 86400
                          + hh * 3600 + mi * 60 + ss - off in
              Some (mkTime (secs * Second + nsec) off)
          | None => None
          end
      | _, _, _, _ => None
      end
    | _, _ => None
    end
  else None.

(** The general parser, chunk by chunk, each step returning the parsed
    value and the rest of the input (Go's [value]); [None] is an error. *)

Definition obind {A B : Type} (o : option A) (f : A -> option B) : option B :=
  match o with Some a => f a | None => None end.

Local Notation "'let*' p ':=' o 'in' b" := (obind o (fun p => b))
  (at level 200, p pattern, o at level 100, b at level 200).

(** [skip(value, prefix)] for a one-character literal of the layout. *)
Definition skip (value : list ascii) (c : ascii) : option (list ascii) :=
  match value with
  | c' :: r => if Ascii.eqb c c' then Some r else None
  | [] => None
  end.

Definition isDigit (s : list ascii) (i : nat) : bool :=
  match nth_error s i with
  | Some c => match digit c with Some _ => true | None => false end
  | None => false
  end.

(** [getnum(s, fixed)]: one or two leading digits; with [fixed], two. *)
Definition getnum (s : list ascii) (fixed : bool) : option (Z * list ascii) :=
  match s with
  | [] => None
  | c0 :: r0 =>
      match digit c0 with
      | None => None
      | Some d0 =>
          match r0 with
          | c1 :: r1 =>
              match digit c1 with
              | Some d1 => Some (d0 * 10 + d1, r1)
              | None => if fixed then None else Some (d0, r0)
              end
          | [] => if fixed then None else Some (d0, r0)
          end
      end
  end.

(** [case stdLongYear]: four characters, the first a digit, through [atoi]. *)
Definition longYear (value : list ascii) : option (Z * list ascii) :=
  if Nat.leb 4 (List.length value) && isDigit value 0 then
    let* year := digits_acc 0 (firstn 4 value) in Some (year, skipn 4 value)
  else None.

(** The fraction accepted after [stdZeroSecond] when the layout has none:
    [,] or [.] and at least one digit, through [parseNanoseconds]. *)
Definition secFraction (value : list ascii) : Z * list ascii :=
  match value with
  | c :: r =>
      if (Ascii.eqb c "," || Ascii.eqb c ".") && isDigit value 1 then
        let '(ds, r') := frac_digits r in (frac_nanos ds, r')
      else (0, value)
  | [] => (0, value)
  end.

(** [case stdISO8601ColonTZ]: ["Z"], or a sign, two hour digits, [:] and
    two minute digits; the offset hour may be up to 24 and the minute up to
    60 ("The range test use > rather than >="). *)
Definition colonTZ (value : list ascii) : option (Z * list ascii) :=
  match value with
  | "Z"%char :: r => Some (0, r)
  | _ =>
      if Nat.ltb (List.length value) 6 then None
      else if negb (char_at value 3 ":") then None
      else
        let* (hr, _) := getnum (firstn 2 (skipn 1 value)) true in
        let* (mm, _) := getnum (firstn 2 (skipn 4 value)) true in
        if (24 <? hr) || (60 <? mm) then None
        else
          let zoneOffset := (hr * 60 + mm) * 60 in
          if char_at value 0 "+" then Some (zoneOffset, skipn 6 value)
          else if char_at value 0 "-" then Some (- zoneOffset, skipn 6 value)
          else None
  end.

(** [parse("2006-01-02T15:04:05Z07:00", s, UTC, Local)]. *)
Definition parseLayoutRFC3339 (s : string) : option Time :=
  let v := list_ascii_of_string s in
  let* (year, v) := longYear v in
  let* v := skip v "-" in
  let* (month, v) := getnum v true in
  if (month <=? 0) || (12 <? month) then None else
  let* v := skip v "-" in
  let* (day, v) := getnum v true in
  let* v := skip v "T" in
  let* (hour, v) := getnum v false in
  if (hour <? 0) || (24 <=? hour) then None else
  let* v := skip v ":" in
  let* (min, v) := getnum v true in
  if (min <? 0) || (60 <=? min) then None else
  let* v := skip v ":" in
  let* (sec, v) := getnum v true in
  if (sec <? 0) || (60 <=? sec) then None else
  let '(nsec, v) := secFraction v in
  let* (zoneOffset, v) := colonTZ v in
  match v with
  | _ :: _ => None
  | [] =>
      if (day <? 1) || (daysIn month year <? day) then None
      else
        let secs := days_from_civil year month day * 86400
                    + hour * 3600 + min * 60 + sec - zoneOffset in
        Some (mkTime (secs * Second + nsec) zoneOffset)
  end.

Inductive error := ParseError | SourceError | SinkError.

(** [time.Parse(time.RFC3339, s)]: [(Time{}, err)] when [s] does not parse. *)
Definition Parse (s : string) : Time * option error :=
  match parseRFC3339 s with
  | Some t => (t, None)
  | None =>
      match parseLayoutRFC3339 s with
      | Some t => (t, None)
      | None => (zeroTime, Some ParseError)
      end
  end.


(** *** [t.Format(time.RFC3339)] *)

(** [k] decimal digits of [n mod 10^k], most significant first. *)
Fixpoint dec (k : nat) (n : Z) : list ascii :=
  match k with
  | O => []
  | S k' => dec k' (n / 10) ++ [ascii_of_nat (Z.to_nat (48 + n mod 10))]
  end.

Fixpoint ndigits_fuel (fuel : nat) (n : Z) : nat :=
  match fuel with
  | O => 1%nat
  | S f => if n <? 10 then 1%nat else S (ndigits_fuel f (n / 10))
  end.

(** [appendInt(b, x, width)]: decimal, zero padded to [width]. *)
Definition appendInt (x : Z) (width : nat) : list ascii :=
  let a := Z.abs x in
  let w := Nat.max width (ndigits_fuel 64 a) in
  (if x <? 0 then ["-"%char] else []) ++ dec w a.

Definition Format (t : Time) : string :=
  let local := unix_ns t / Second + zone_off t in
  let days := local / 86400 in
  let sod := local mod 86400 in
  let '(y, m, d) := civil_from_days days in
  let zone :=
    if zone_off t =? 0 then ["Z"%char]
    else let zm := Z.abs (zone_off t) / 60 in
         (if zone_off t <? 0 then "-"%char else "+"%char)
           :: appendInt (zm / 60) 2 ++ [":"%char] ++ appendInt (zm mod 60) 2 in
  string_of_list_ascii
    (appendInt y 4 ++ ["-"%char] ++ appendInt m 2 ++ ["-"%char] ++ appendInt d 2
     ++ ["T"%char] ++ appendInt (sod / 3600) 2 ++ [":"%char]
     ++ appendInt (sod mod 3600 / 60) 2 ++ [":"%char] ++ appendInt (sod mod 60) 2
     ++ zone).

Example parse_format_example :
  Format (fst (Parse "2024-03-01T11:02:30.5+01:00")) = "2024-03-01T11:02:30+01:00"%string.
Proof. vm_compute. reflexivity. Qed.

Example parse_utc_example :
  Format (Round (fst (Parse "2024-03-01T10:07:10Z")) (5 * Minute))
  = "2024-03-01T10:05:00Z"%string.
Proof. vm_compute. reflexivity. Qed.

Example parse_general_examples :
  Format (fst (Parse "2024-03-01T1:02:03Z")) = "2024-03-01T01:02:03Z"%string
  /\ Format (fst (Parse "2024-03-01T10:02:03,5Z")) = "2024-03-01T10:02:03Z"%string
  /\ zone_off (fst (Parse "2024-03-01T10:02:30+24:60")) = 90000
  /\ snd (Parse "2024-03-01T10:00:00+25:00") = Some ParseError
  /\ snd (Parse "2024-02-30T10:00:00Z") = Some ParseError
  /\ snd (Parse "not-a-time") = Some ParseError.
Proof. vm_compute. repeat split. Qed.

(** ** Go's [sort.Slice]

    [sort.Slice(x, less)] is not stable.  Its contract, for a [less] that
    compares a key, is that the result is a permutation of the input sorted
    by the key; the class states exactly that, so results below hold for any
    sorting routine Go may use.  For slices of at most 12 elements Go's
    pdqsort runs [insertionSortLessFunc], modelled by [insertionSort]. *)

Class SortSlice := {
  sort_Slice : forall {A : Type}, (A -> A -> bool) -> list A -> list A;
  sort_Slice_perm : forall A (less : A -> A -> bool) l,
      Permutation (sort_Slice less l) l;
  sort_Slice_sorted : forall A (key : A -> Z) l,
      StronglySorted (fun a b => key a <= key b)
        (sort_Slice (fun a b => key a <? key b) l)
}.

(** The inner loop of [insertionSortLessFunc]: the new element [x] is swapped
    leftwards while [less(x, data[j-1])]; [rp] is the sorted prefix, right end
    first. *)
Fixpoint insert_left {A} (less : A -> A -> bool) (x : A) (rp : list A) : list A :=
  match rp with
  | [] => [x]
  | y :: rp' => if less x y then y :: insert_left less x rp' else x :: rp
  end.

(** [insertionSortLessFunc(data, 0, len(data))]. *)
Definition insertionSort {A} (less : A -> A -> bool) (l : list A) : list A :=
  rev (fold_left (fun rp x => insert_left less x rp) l []).

(** ** Data model (struct types of part_001) *)

(** Decoded [interface{}] values of a DynamoDB item. *)
Inductive JSON :=
| JNull
| JBool (b : bool)
| JNumber (text : string)
| JString (s : string)
| JArray (xs : list JSON)
| JObject (kvs : list (string * JSON)).

(** [map[string]interface{}]: [None] is a nil map; [Some kvs] lists the
    entries in key order, the order [encoding/json] writes them in. *)
Definition GoMap := option (list (string * JSON)).

Record MonitorData := mkMonitorData {
  MonitorId : string;
  Timestamp : string;
  OrgId : string;
  Values : GoMap
}.

Module Entry.
Record t := mk { Timestamp : string; Values : GoMap }.
End Entry.

Module CompiledMonitorData.
Record t := mk {
  MonitorId : string;
  OrgId : string;
  StartTime : string;
  Entries : list Entry.t
}.
End CompiledMonitorData.

Record Event := mkEvent { Name : string }.

(** *** [encoding/json] on these structs: each field under its [json] tag. *)

Definition marshal_map (m : GoMap) : JSON :=
  match m with None => JNull | Some kvs => JObject kvs end.

(** [type Entry struct { Timestamp string `json:"timestamp"`;
    Values map[string]interface{} `json:"monitorId"` }]. *)
Definition marshal_Entry (e : Entry.t) : JSON :=
  JObject [("timestamp", JString (Entry.Timestamp e));
           ("monitorId", marshal_map (Entry.Values e))].

Definition marshal_CompiledMonitorData (c : CompiledMonitorData.t) : JSON :=
  JObject [("monitorId", JString (CompiledMonitorData.MonitorId c));
           ("orgId", JString (CompiledMonitorData.OrgId c));
           ("startTime", JString (CompiledMonitorData.StartTime c));
           ("entries", JArray (map marshal_Entry (CompiledMonitorData.Entries c)))].

(** [s3.PutObjectInput]; the body is the JSON document that
    [json.MarshalIndent(compileMonitorData, "", " ")] prints. *)
Record PutObjectInput := mkPutObjectInput {
  Bucket : string;
  Key : string;
  Body : JSON
}.

(** ** The program *)

Definition FILE_DURATION : Duration := 5 * Minute.
Definition BUCKET_NAME : string := "lumi-monitor-data".

(** [t, _ := time.Parse(time.RFC3339, data.Timestamp)] *)
Definition parsed (data : MonitorData) : Time := fst (Parse (Timestamp data)).

(** The [less] closure given to [sort.Slice] (parse errors ignored, "Todo"). *)
Definition less_timestamp (a b : MonitorData) : bool :=
  Before (parsed a) (parsed b).

(** The slot loop of [compileMonitorData]:
    [for !splitTime.After(roundedUpEndTime) { slotStartTime := splitTime.Add(-FILE_DURATION); ...;
     splitTime = splitTime.Add(FILE_DURATION) }], returning the slot start times
    in spawn order.  [fuel] bounds the iterations; [slots] gives enough. *)
Fixpoint slot_loop (fuel : nat) (splitTime roundedUpEndTime : Time) : list Time :=
  match fuel with
  | O => []
  | S f =>
      if negb (After splitTime roundedUpEndTime)
      then Add splitTime (- FILE_DURATION)
             :: slot_loop f (Add splitTime FILE_DURATION) roundedUpEndTime
      else []
  end.

Definition slots (splitTime roundedUpEndTime : Time) : list Time :=
  slot_loop (S (Z.to_nat ((unix_ns roundedUpEndTime - unix_ns splitTime)
                          / FILE_DURATION)))
            splitTime roundedUpEndTime.

(** [roundedDownStartTime] *)
Definition roundDown (t : Time) (d : Duration) : Time :=
  let r := Round t d in
  if After r t then Add r (- d) else r.

(** [roundedUpEndTime] *)
Definition roundUp (t : Time) (d : Duration) : Time :=
  let r := Round t d in
  if Before r t then Add r d else r.

(** The records of one slot:
    [currentTimestamp.After(slotStartTime) && currentTimestamp.Before(splitTime)]. *)
Definition in_slot (slotStartTime : Time) (data : MonitorData) : bool :=
  After (parsed data) slotStartTime
  && Before (parsed data) (Add slotStartTime FILE_DURATION).

Definition split_data (dataArray : list MonitorData) (slotStartTime : Time)
  : list MonitorData :=
  filter (in_slot slotStartTime) dataArray.

(** [compileAndStoreinS3]: the upload request, or [None] when it returns
    early on an empty slot. *)
Definition compileAndStoreinS3 (splitDataArray : list MonitorData)
    (slotStartTime : Time) : option PutObjectInput :=
  match splitDataArray with
  | [] => None
  | first :: _ =>
      let orgId := OrgId first in
      let monitorId := MonitorId first in
      let entries := map (fun data => Entry.mk (Timestamp data) (Values data))
                         splitDataArray in
      let compiled := CompiledMonitorData.mk monitorId orgId
                        (Format slotStartTime) entries in
      let filename := (orgId ++ "/" ++ monitorId ++ "/"
                       ++ Format slotStartTime ++ "-data.json")%string in
      Some (mkPutObjectInput BUCKET_NAME filename
              (marshal_CompiledMonitorData compiled))
  end.

Section Program.
Context `{SortSlice}.

Definition sortData (dataArray : list MonitorData) : list MonitorData :=
  sort_Slice less_timestamp dataArray.

(** The window plan of [compileMonitorData]: the [slotStartTime]s of the
    loop, from the sorted slice's first and last timestamps. *)
Definition plan (sorted : list MonitorData) : list Time :=
  match sorted with
  | [] => []
  | first :: _ =>
      let firstTimestamp := parsed first in
      let lastTimestamp := parsed (last sorted first) in
      let roundedDownStartTime := roundDown firstTimestamp FILE_DURATION in
      let roundedUpEndTime := roundUp lastTimestamp FILE_DURATION in
      slots (Add roundedDownStartTime FILE_DURATION) roundedUpEndTime
  end.

(** [compileMonitorData]: the calls [go compileAndStoreinS3(&fileWg,
    splitDataArray, slotStartTime, client)] in spawn order; [None] is the
    index-out-of-range panic on an empty slice. *)
Definition compileMonitorData (dataArray : list MonitorData)
  : option (list (list MonitorData * Time)) :=
  let sorted := sortData dataArray in
  match sorted with
  | [] => None
  | _ => Some (map (fun s => (split_data sorted s, s)) (plan sorted))
  end.

End Program.

(** ** [fetchAllMonitorData] *)

(** [expression.LessThan(expression.Name(name), expression.Value(value))]. *)
Inductive Condition := LessThan (name : string) (value : string).

(** The fields of [dynamodb.ScanInput] the code sets; the filter expression,
    its names and its values are those of the built condition. *)
Record ScanInput := mkScanInput {
  TableName : string;
  FilterExpression : Condition;
  Limit : Z
}.

(** [t.UTC()]: the same instant with zone offset 0. *)
Definition UTC (t : Time) : Time := mkTime (unix_ns t) 0.

(** [expression.LessThan(expression.Name("Timestamp"),
    expression.Value(time.Now().UTC().Format(time.RFC3339)))]. *)
Definition filterExpr (now : Time) : Condition :=
  LessThan "Timestamp" (Format (UTC now)).

Definition scanInput (expr : Condition) : ScanInput :=
  mkScanInput "Lumi-Monitoring-Logs" expr 1000.

(** [now] is [time.Now()]; [build] is the error of
    [expression.NewBuilder().WithFilter(...).Build()]; [scan] is DynamoDB's
    answer [(out.Items, err)] to [client.Scan]; [unmarshalMap] is the
    record and the error of [attributevalue.UnmarshalMap]. *)
Section Fetch.
Context {Item : Type}.
Variable build : Condition -> option error.
Variable scan : ScanInput -> list Item * option error.
Variable unmarshalMap : Item -> MonitorData * option error.

(** The loop [for _, item := range out.Items { ... }] from [result]. *)
Fixpoint unmarshal_items (items : list Item) (result : list MonitorData)
  : list MonitorData * option error :=
  match items with
  | [] => (result, None)
  | item :: items' =>
      let '(monitorData, err) := unmarshalMap item in
      match err with
      | Some e => ([], Some e)
      | None => unmarshal_items items' (result ++ [monitorData])%list
      end
  end.

Definition fetchAllMonitorData (now : Time) : list MonitorData * option error :=
  let expr := filterExpr now in
  match build expr with
  | Some e => ([], Some e)
  | None =>
      let '(items, err) := scan (scanInput expr) in
      match err with
      | Some e => ([], Some e)
      | None => unmarshal_items items []
      end
  end.

End Fetch.

(** ** [HandleRequest] *)

(** [monitorDataMap[data.MonitorId] = append(monitorDataMap[data.MonitorId], data)];
    the map's groups are listed in order of first appearance (Go iterates a
    map in an unspecified order; no result below depends on it). *)
Fixpoint add_to_group (data : MonitorData) (m : list (string * list MonitorData))
  : list (string * list MonitorData) :=
  match m with
  | [] => [(MonitorId data, [data])]
  | (k, ds) :: m' =>
      if String.eqb k (MonitorId data) then (k, (ds ++ [data])%list) :: m'
      else (k, ds) :: add_to_group data m'
  end.

Definition group_by_monitor (all : list MonitorData)
  : list (string * list MonitorData) :=
  fold_left (fun m data => add_to_group data m) all [].

(** What the lambda logs. *)
Inductive LogLine :=
| LogUploadError (e : error)               (* "Got error uploading file:" *)
| LogArchived (orgId monitorId : string) (start : Time).

(** One [client.PutObject] call of [compileAndStoreinS3] and what it logs;
    [putObject] is S3's answer. *)
Definition store (putObject : PutObjectInput -> option error)
    (call : list MonitorData * Time) : list (PutObjectInput * LogLine) :=
  let '(splitDataArray, slotStartTime) := call in
  match compileAndStoreinS3 splitDataArray slotStartTime with
  | None => []
  | Some input =>
      match putObject input with
      | Some e => [(input, LogUploadError e)]
      | None =>
          match splitDataArray with
          | first :: _ => [(input, LogArchived (OrgId first) (MonitorId first) slotStartTime)]
          | [] => []
          end
      end
  end.

(** Everything the invocation does: the uploads with their log lines, and
    the [(string, error)] pair it returns.  [fetched] is the pair
    [fetchAllMonitorData] returned: [(nil, err)] or [(result, nil)]. *)
Record Invocation := mkInvocation {
  uploads : list (PutObjectInput * LogLine);
  returned : string * option error
}.

Section Handler.
Context `{SortSlice}.

(** The body of [HandleRequest] after [config.LoadDefaultConfig] succeeded
    (lines 70-89): [allMonitorData, err := fetchAllMonitorData(dynamoClient)]
    binds [err] and never reads it. *)
Definition HandleRequest (event : Event)
    (fetched : list MonitorData * option error)
    (putObject : PutObjectInput -> option error) : Invocation :=
  let '(allMonitorData, err) := fetched in
  let monitorDataMap := group_by_monitor allMonitorData in
  let work :=
    flat_map (fun '(_, dataArray) =>
                match compileMonitorData dataArray with
                | Some calls => flat_map (store putObject) calls
                | None => []
                end) monitorDataMap in
  mkInvocation work ("Hello " ++ Name event, None).

(** How an invocation of [HandleRequest] ends: [log.Fatalf] exits the
    process without returning, or the function returns. *)
Inductive Outcome := FatalExit (e : error) | Returns (inv : Invocation).

(** [HandleRequest] from its first line: [loadDefaultConfig] is the error
    of [config.LoadDefaultConfig]; on an error [log.Fatalf] exits. *)
Definition HandleRequest_full (loadDefaultConfig : option error) (event : Event)
    (fetched : list MonitorData * option error)
    (putObject : PutObjectInput -> option error) : Outcome :=
  match loadDefaultConfig with
  | Some e => FatalExit e
  | None => Returns (HandleRequest event fetched putObject)
  end.

End Handler.

(** [monitorDataMap[k]]: the group of [k], [nil] when [k] is absent. *)
Fixpoint lookup_group (k : string) (m : list (string * list MonitorData))
  : list MonitorData :=
  match m with
  | [] => []
  | (k', ds) :: m' => if String.eqb k' k then ds else lookup_group k m'
  end.

(** A record as it appears among the entries of an uploaded document. *)
Definition entry_json (data : MonitorData) : JSON :=
  marshal_Entry (Entry.mk (Timestamp data) (Values data)).

(** The "entries" array of an upload's JSON body. *)
Definition body_entries (input : PutObjectInput) : list JSON :=
  match Body input with
  | JObject kvs =>
      match find (fun kv => String.eqb (fst kv) "entries") kvs with
      | Some (_, JArray es) => es
      | _ => []
      end
  | _ => []
  end.

(** ** [insertionSort] meets the contract of [sort.Slice] *)

Lemma insert_left_perm {A} (less : A -> A -> bool) x rp :
  Permutation (insert_left less x rp) (x :: rp).
Proof.
  induction rp as [|y rp IH]; simpl; [reflexivity|].
  destruct (less x y); [|reflexivity].
  rewrite IH. apply perm_swap.
Qed.

Lemma fold_insert_perm {A} (less : A -> A -> bool) l rp :
  Permutation (fold_left (fun rp x => insert_left less x rp) l rp) (rev l ++ rp).
Proof.
  revert rp; induction l as [|x l IH]; intro rp; simpl; [reflexivity|].
  rewrite IH, insert_left_perm, <- app_assoc. reflexivity.
Qed.

Lemma insertionSort_perm {A} (less : A -> A -> bool) l :
  Permutation (insertionSort less l) l.
Proof.
  unfold insertionSort. rewrite <- Permutation_rev, fold_insert_perm, app_nil_r.
  symmetry. apply Permutation_rev.
Qed.

Lemma StronglySorted_snoc {A} (R : A -> A -> Prop) l a :
  StronglySorted R l -> Forall (fun x => R x a) l -> StronglySorted R (l ++ [a]).
Proof.
  induction l as [|x l IH]; intros Hs Hf; simpl.
  - repeat constructor.
  - apply StronglySorted_inv in Hs as [Hs Hx]. inversion Hf; subst.
    constructor; [auto|]. apply Forall_app; split; auto.
Qed.

Lemma StronglySorted_rev {A} (R : A -> A -> Prop) l :
  StronglySorted (fun a b => R b a) l -> StronglySorted R (rev l).
Proof.
  induction l as [|x l IH]; intro Hs; simpl; [constructor|].
  apply StronglySorted_inv in Hs as [Hs Hx].
  apply StronglySorted_snoc; [auto|].
  rewrite Forall_forall in *. intros y Hy. apply Hx. now apply in_rev.
Qed.

Lemma insert_left_sorted {A} (key : A -> Z) x rp :
  StronglySorted (fun a b => key b <= key a) rp ->
  StronglySorted (fun a b => key b <= key a)
    (insert_left (fun a b => key a <? key b) x rp).
Proof.
  induction rp as [|y rp IH]; intro Hs; simpl.
  - repeat constructor.
  - apply StronglySorted_inv in Hs as [Hs Hy].
    destruct (Z.ltb_spec (key x) (key y)).
    + constructor; [auto|].
      apply Forall_forall. intros z Hz.
      apply (Permutation_in _ (insert_left_perm _ x rp)) in Hz.
      destruct Hz as [<-|Hz]; [lia|]. rewrite Forall_forall in Hy. auto.
    + constructor; [constructor; auto|].
      constructor; [lia|]. rewrite Forall_forall in *. intros z Hz.
      specialize (Hy z Hz). lia.
Qed.

Lemma insertionSort_sorted {A} (key : A -> Z) l :
  StronglySorted (fun a b => key a <= key b)
    (insertionSort (fun a b => key a <? key b) l).
Proof.
  unfold insertionSort. apply StronglySorted_rev.
  assert (forall rp, StronglySorted (fun a b => key b <= key a) rp ->
    StronglySorted (fun a b => key b <= key a)
      (fold_left (fun rp x => insert_left (fun a b => key a <? key b) x rp) l rp))
    as G.
  { induction l as [|x l IH]; intros rp Hrp; simpl; auto.
    apply IH, insert_left_sorted, Hrp. }
  apply G. constructor.
Qed.

(** Go's [sort.Slice] on slices of at most 12 elements (the concrete runs
    below have at most 3). *)
Definition GoInsertionSort : SortSlice := {|
  sort_Slice := @insertionSort;
  sort_Slice_perm := @insertionSort_perm;
  sort_Slice_sorted := @insertionSort_sorted
|}.

(** ** Concrete runs *)

Definition rec (mon ts : string) (v : string) : MonitorData :=
  mkMonitorData mon ts "org1" (Some [("v", JNumber v)]).

Definition scenarioA : list MonitorData :=
  [rec "m1" "2024-03-01T10:07:10Z" "3"; rec "m1" "2024-03-01T10:00:00Z" "1";
   rec "m1" "2024-03-01T10:02:30Z" "2"].

(** Two monitors, interleaved. *)
Definition scenarioG : list MonitorData :=
  [rec "m1" "2024-03-01T10:07:10Z" "1"; rec "m2" "2024-03-01T10:01:00Z" "2";
   rec "m1" "2024-03-01T10:02:00Z" "3"].

Example scenarioA_run :
  option_map (map (fun '(ds, s) => (map Timestamp ds, Format s)))
    (@compileMonitorData GoInsertionSort scenarioA)
  = Some [(["2024-03-01T10:02:30Z"], "2024-03-01T10:00:00Z");
          (["2024-03-01T10:07:10Z"], "2024-03-01T10:05:00Z")].
Proof. vm_compute. reflexivity. Qed.

(** ** Rounding lemmas *)

Definition ts (data : MonitorData) : Z := unix_ns (parsed data).

(** Epoch-aligned floor and ceiling of an instant. *)
Definition alignedStart (x : Z) : Z := x / FILE_DURATION * FILE_DURATION.
Definition alignedCeil (x : Z) : Z := - ((- x) / FILE_DURATION) * FILE_DURATION.

(** Whether a record's timestamp lies on a 5-minute boundary of the Unix epoch. *)
Definition on_boundary (data : MonitorData) : bool := ts data mod FILE_DURATION =? 0.

Lemma FILE_DURATION_pos : 0 < FILE_DURATION.
Proof. reflexivity. Qed.

Lemma zeroTime_aligned : unix_ns zeroTime mod FILE_DURATION = 0.
Proof. reflexivity. Qed.

Lemma Round_cases (t : Time) (d : Duration) : 0 < d ->
  let r := (unix_ns t - unix_ns zeroTime) mod d in
  0 <= r < d /\
  Round t d = (if r + r <? d then mkTime (unix_ns t - r) (zone_off t)
               else mkTime (unix_ns t + (d - r)) (zone_off t)).
Proof.
  intros Hd r. split.
  - apply Z.mod_pos_bound; lia.
  - unfold Round, lessThanHalf, div_rem, Add.
    destruct (Z.leb_spec d 0); [lia|]. fold r.
    destruct (r + r <? d); f_equal; lia.
Qed.

Lemma roundDown_spec (t : Time) (d : Duration) : 0 < d ->
  roundDown t d
  = mkTime (unix_ns t - (unix_ns t - unix_ns zeroTime) mod d) (zone_off t).
Proof.
  intros Hd. destruct (Round_cases t d Hd) as [Hr HR].
  unfold roundDown. rewrite HR.
  set (r := (unix_ns t - unix_ns zeroTime) mod d) in *.
  destruct (Z.ltb_spec (r + r) d); unfold After, Add; simpl.
  - destruct (Z.ltb_spec (unix_ns t) (unix_ns t - r)); [lia|reflexivity].
  - destruct (Z.ltb_spec (unix_ns t) (unix_ns t + (d - r))); [|lia].
    f_equal. lia.
Qed.

Lemma roundUp_spec (t : Time) (d : Duration) : 0 < d ->
  let r := (unix_ns t - unix_ns zeroTime) mod d in
  roundUp t d
  = mkTime (if r =? 0 then unix_ns t else unix_ns t + (d - r)) (zone_off t).
Proof.
  intros Hd r. destruct (Round_cases t d Hd) as [Hr HR].
  unfold roundUp. rewrite HR. fold r.
  destruct (Z.ltb_spec (r + r) d); unfold Before, Add; simpl.
  - destruct (Z.ltb_spec (unix_ns t - r) (unix_ns t));
      destruct (Z.eqb_spec r 0); try lia; f_equal; lia.
  - destruct (Z.ltb_spec (unix_ns t + (d - r)) (unix_ns t)); [lia|].
    destruct (Z.eqb_spec r 0); [lia|reflexivity].
Qed.

Lemma mod_FILE_DURATION (t : Time) :
  (unix_ns t - unix_ns zeroTime) mod FILE_DURATION = unix_ns t mod FILE_DURATION.
Proof.
  change (unix_ns zeroTime) with (-207118656 * FILE_DURATION).
  replace (unix_ns t - -207118656 * FILE_DURATION)
    with (unix_ns t + 207118656 * FILE_DURATION) by lia.
  rewrite Z.mod_add; [reflexivity|discriminate].
Qed.

Lemma roundDown_aligned (t : Time) :
  unix_ns (roundDown t FILE_DURATION) = alignedStart (unix_ns t)
  /\ zone_off (roundDown t FILE_DURATION) = zone_off t.
Proof.
  rewrite roundDown_spec by reflexivity. cbn [unix_ns zone_off].
  rewrite mod_FILE_DURATION.
  unfold alignedStart. split; [|reflexivity].
  pose proof (Z.div_mod (unix_ns t) FILE_DURATION ltac:(discriminate)). lia.
Qed.

Lemma ceil_by_mod (x D : Z) : 0 < D ->
  (if x mod D =? 0 then x else x + (D - x mod D)) = - ((- x) / D) * D.
Proof.
  intros HD.
  pose proof (Z.div_mod x D ltac:(lia)).
  pose proof (Z.mod_pos_bound x D HD).
  destruct (Z.eqb_spec (x mod D) 0) as [E|E].
  - rewrite Z.div_opp_l_z by lia. lia.
  - rewrite Z.div_opp_l_nz by lia. lia.
Qed.

Lemma roundUp_aligned (t : Time) :
  unix_ns (roundUp t FILE_DURATION) = alignedCeil (unix_ns t)
  /\ zone_off (roundUp t FILE_DURATION) = zone_off t.
Proof.
  rewrite roundUp_spec by reflexivity. cbn [unix_ns zone_off].
  rewrite mod_FILE_DURATION.
  split; [|reflexivity]. unfold alignedCeil.
  apply ceil_by_mod, FILE_DURATION_pos.
Qed.

(** ** The slot loop in closed form *)

Definition window_starts (start : Time) (n : nat) : list Time :=
  map (fun k => Add start (Z.of_nat k * FILE_DURATION)) (seq 0 n).

Lemma Add_0 (t : Time) : Add t 0 = t.
Proof. destruct t; unfold Add; simpl; f_equal; lia. Qed.

Lemma Add_Add (t : Time) (a b : Duration) : Add (Add t a) b = Add t (a + b).
Proof. destruct t; unfold Add; simpl; f_equal; lia. Qed.

Lemma window_starts_S (start : Time) (n : nat) :
  window_starts start (S n) = start :: window_starts (Add start FILE_DURATION) n.
Proof.
  unfold window_starts. cbn [seq map]. rewrite <- seq_shift, map_map.
  f_equal; [replace (Z.of_nat 0 * FILE_DURATION) with 0 by lia; apply Add_0|].
  apply map_ext. intro k. rewrite Add_Add. f_equal. lia.
Qed.

Lemma slot_loop_closed (fuel : nat) (s e : Time) :
  (Z.to_nat ((unix_ns e - unix_ns s) / FILE_DURATION + 1) <= fuel)%nat ->
  slot_loop fuel s e
  = window_starts (Add s (- FILE_DURATION))
      (Z.to_nat ((unix_ns e - unix_ns s) / FILE_DURATION + 1)).
Proof.
  pose proof FILE_DURATION_pos as HD.
  revert s. induction fuel as [|f IH]; intros s Hf.
  - assert (Z.to_nat ((unix_ns e - unix_ns s) / FILE_DURATION + 1) = 0%nat)
      as -> by lia. reflexivity.
  - cbn [slot_loop]. unfold After.
    destruct (Z.ltb_spec (unix_ns e) (unix_ns s)) as [Hlt|Hle]; cbn [negb].
    + assert ((unix_ns e - unix_ns s) / FILE_DURATION < 0).
      { apply Z.div_lt_upper_bound; lia. }
      replace (Z.to_nat ((unix_ns e - unix_ns s) / FILE_DURATION + 1)) with 0%nat
        by lia. reflexivity.
    + set (q := (unix_ns e - unix_ns s) / FILE_DURATION).
      assert (Hq : 0 <= q) by (apply Z.div_pos; lia).
      assert (Hq' : (unix_ns e - unix_ns (Add s FILE_DURATION)) / FILE_DURATION + 1 = q).
      { unfold Add; cbn [unix_ns]. unfold q.
        replace (unix_ns e - (unix_ns s + FILE_DURATION))
          with (unix_ns e - unix_ns s + (-1) * FILE_DURATION) by lia.
        rewrite Z.div_add by lia. lia. }
      replace (Z.to_nat (q + 1)) with (S (Z.to_nat q)) by lia.
      rewrite window_starts_S, IH, Hq'; [|rewrite Hq'; lia].
      rewrite !Add_Add, Z.add_opp_diag_r, Z.add_opp_diag_l. reflexivity.
Qed.

(** The plan of a sorted slice, from its first and last record. *)
Lemma plan_closed `{SortSlice} (first : MonitorData) (rest : list MonitorData) :
  plan (first :: rest)
  = window_starts (roundDown (parsed first) FILE_DURATION)
      (Z.to_nat ((alignedCeil (ts (last (first :: rest) first))
                  - alignedStart (ts first)) / FILE_DURATION)).
Proof.
  pose proof FILE_DURATION_pos as HD.
  unfold plan, slots.
  destruct (roundDown_aligned (parsed first)) as [Hd _].
  destruct (roundUp_aligned (parsed (last (first :: rest) first))) as [Hu _].
  set (rd := roundDown (parsed first) FILE_DURATION) in *.
  set (ru := roundUp (parsed (last (first :: rest) first)) FILE_DURATION) in *.
  assert (E : (unix_ns ru - unix_ns (Add rd FILE_DURATION)) / FILE_DURATION + 1
              = (alignedCeil (ts (last (first :: rest) first))
                 - alignedStart (ts first)) / FILE_DURATION).
  { unfold Add; cbn [unix_ns]. unfold ts. rewrite <- Hd, <- Hu.
    replace (unix_ns ru - (unix_ns rd + FILE_DURATION))
      with (unix_ns ru - unix_ns rd + (-1) * FILE_DURATION) by lia.
    rewrite Z.div_add by lia. lia. }
  rewrite slot_loop_closed; rewrite E; [|lia].
  rewrite Add_Add, Z.add_opp_diag_r, Add_0. reflexivity.
Qed.

(** ** The sorted slice: first and last record, uniqueness *)

Definition min_ts (l : list MonitorData) : Z :=
  match l with [] => 0 | r :: l' => fold_right Z.min (ts r) (map ts l') end.

Definition max_ts (l : list MonitorData) : Z :=
  match l with [] => 0 | r :: l' => fold_right Z.max (ts r) (map ts l') end.

Lemma min_ts_spec (r : MonitorData) (l : list MonitorData) :
  (exists y, In y (r :: l) /\ ts y = min_ts (r :: l))
  /\ (forall y, In y (r :: l) -> min_ts (r :: l) <= ts y).
Proof.
  unfold min_ts. induction l as [|a l [[y [Hy Ey]] IH]]; simpl.
  - split; [exists r; auto|]. intros y [<-|[]]; lia.
  - split.
    + destruct (Z.min_spec (ts a) (fold_right Z.min (ts r) (map ts l)))
        as [[_ ->]|[_ ->]].
      * exists a; auto.
      * exists y. simpl in Hy. destruct Hy as [->|Hy]; auto.
    + intros z Hz. simpl in IH.
      destruct Hz as [E|[E|Hz]]; subst.
      * specialize (IH z (or_introl eq_refl)). lia.
      * lia.
      * specialize (IH z (or_intror Hz)). lia.
Qed.

Lemma max_ts_spec (r : MonitorData) (l : list MonitorData) :
  (exists y, In y (r :: l) /\ ts y = max_ts (r :: l))
  /\ (forall y, In y (r :: l) -> ts y <= max_ts (r :: l)).
Proof.
  unfold max_ts. induction l as [|a l [[y [Hy Ey]] IH]]; simpl.
  - split; [exists r; auto|]. intros y [<-|[]]; lia.
  - split.
    + destruct (Z.max_spec (ts a) (fold_right Z.max (ts r) (map ts l)))
        as [[_ ->]|[_ ->]].
      * exists y. simpl in Hy. destruct Hy as [->|Hy]; auto.
      * exists a; auto.
    + intros z Hz. simpl in IH.
      destruct Hz as [E|[E|Hz]]; subst.
      * specialize (IH z (or_introl eq_refl)). lia.
      * lia.
      * specialize (IH z (or_intror Hz)). lia.
Qed.

Lemma last_default {A} (b : A) (l : list A) (d d' : A) :
  last (b :: l) d = last (b :: l) d'.
Proof.
  revert b. induction l as [|c l IH]; intro b; [reflexivity|].
  change (last (c :: l) d = last (c :: l) d'). apply IH.
Qed.

Lemma last_in {A} (a : A) (l : list A) : In (last (a :: l) a) (a :: l).
Proof.
  revert a. induction l as [|b l IH]; intro a; [left; reflexivity|].
  right. change (In (last (b :: l) a) (b :: l)).
  rewrite (last_default b l a b). apply IH.
Qed.

Lemma StronglySorted_last {A} (R : A -> A -> Prop) (a : A) (l : list A) :
  StronglySorted R (a :: l) ->
  forall x, In x (a :: l) -> x = last (a :: l) a \/ R x (last (a :: l) a).
Proof.
  revert a. induction l as [|b l IH]; intros a Hs x Hx.
  - destruct Hx as [<-|[]]. left; reflexivity.
  - apply StronglySorted_inv in Hs as [Hs Ha].
    change (last (a :: b :: l) a) with (last (b :: l) a).
    rewrite (last_default b l a b).
    destruct Hx as [<-|Hx]; [|now apply IH].
    right. rewrite Forall_forall in Ha. apply Ha, last_in.
Qed.

Section Sorted.
Context `{SortSlice}.

Lemma sortData_perm (l : list MonitorData) : Permutation (sortData l) l.
Proof. apply sort_Slice_perm. Qed.

Lemma sortData_sorted (l : list MonitorData) :
  StronglySorted (fun a b => ts a <= ts b) (sortData l).
Proof. exact (sort_Slice_sorted MonitorData ts l). Qed.

Lemma sortData_ends (l : list MonitorData) (first : MonitorData) (rest : list MonitorData) :
  sortData l = first :: rest ->
  ts first = min_ts l /\ ts (last (first :: rest) first) = max_ts l.
Proof.
  intros Hs.
  pose proof (sortData_perm l) as Hp. pose proof (sortData_sorted l) as Hss.
  rewrite Hs in Hp, Hss.
  destruct l as [|r0 l0].
  { apply Permutation_sym, Permutation_nil in Hp. discriminate. }
  destruct (min_ts_spec r0 l0) as [[y [Hy Ey]] Hmin].
  destruct (max_ts_spec r0 l0) as [[z [Hz Ez]] Hmax].
  split.
  - assert (Hf : In first (r0 :: l0)) by (eapply Permutation_in; [exact Hp|left; auto]).
    apply Permutation_sym in Hp.
    assert (Hyr : In y (first :: rest)) by (eapply Permutation_in; eauto).
    apply StronglySorted_inv in Hss as [_ Hall]. rewrite Forall_forall in Hall.
    specialize (Hmin first Hf).
    destruct Hyr as [<-|Hyr]; [lia|]. specialize (Hall y Hyr). lia.
  - assert (Hl : In (last (first :: rest) first) (r0 :: l0))
      by (eapply Permutation_in; [exact Hp|apply last_in]).
    apply Permutation_sym in Hp.
    assert (Hzr : In z (first :: rest)) by (eapply Permutation_in; eauto).
    specialize (Hmax _ Hl).
    destruct (StronglySorted_last _ _ _ Hss z Hzr) as [E|E].
    + rewrite <- E. lia.
    + lia.
Qed.

End Sorted.

(** Two slices sorted by timestamp that are permutations of each other and
    have pairwise distinct timestamps are equal. *)
Lemma sorted_perm_unique (l1 l2 : list MonitorData) :
  StronglySorted (fun a b => ts a <= ts b) l1 ->
  StronglySorted (fun a b => ts a <= ts b) l2 ->
  Permutation l1 l2 -> NoDup (map ts l1) -> l1 = l2.
Proof.
  revert l2. induction l1 as [|a l1 IH]; intros l2 S1 S2 P N.
  - symmetry. apply Permutation_nil, P.
  - destruct l2 as [|b l2].
    { apply Permutation_sym, Permutation_nil in P. discriminate. }
    assert (Ha : In a (b :: l2)) by (eapply Permutation_in; [exact P|left; auto]).
    assert (Hb : In b (a :: l1))
      by (eapply Permutation_in; [apply Permutation_sym, P|left; auto]).
    assert (a = b) as <-.
    { destruct Ha as [|Ha]; [auto|]. destruct Hb as [|Hb]; [auto|].
      exfalso.
      apply StronglySorted_inv in S1 as [_ F1]. apply StronglySorted_inv in S2 as [_ F2].
      rewrite Forall_forall in F1, F2.
      specialize (F1 b Hb). specialize (F2 a Ha).
      simpl in N. apply NoDup_cons_iff in N as [N _]. apply N.
      replace (ts a) with (ts b) by lia. now apply in_map. }
    f_equal. apply IH.
    + now apply StronglySorted_inv in S1.
    + now apply StronglySorted_inv in S2.
    + now apply Permutation_cons_inv in P.
    + simpl in N. now apply NoDup_cons_iff in N.
Qed.

(** With distinct timestamps, every sorting routine meeting the contract of
    [sort.Slice] yields the same slice, whatever the input order. *)
Lemma sortData_canonical (S1 S2 : SortSlice) (l1 l2 : list MonitorData) :
  Permutation l1 l2 -> NoDup (map ts l1) ->
  @sortData S1 l1 = @sortData S2 l2.
Proof.
  intros P N. apply sorted_perm_unique.
  - apply sortData_sorted.
  - apply sortData_sorted.
  - rewrite sortData_perm, P. symmetry. apply sortData_perm.
  - apply (Permutation_NoDup (Permutation_map ts (Permutation_sym (sortData_perm l1)))), N.
Qed.

Lemma compileMonitorData_canonical (S1 S2 : SortSlice) (l1 l2 : list MonitorData) :
  Permutation l1 l2 -> NoDup (map ts l1) ->
  @compileMonitorData S1 l1 = @compileMonitorData S2 l2.
Proof.
  intros P N. unfold compileMonitorData.
  rewrite (sortData_canonical S1 S2 l1 l2 P N). reflexivity.
Qed.

(** ** The plan of a record batch in closed form *)

Lemma alignedStart_spec (x : Z) :
  alignedStart x <= x < alignedStart x + FILE_DURATION
  /\ alignedStart x = x / FILE_DURATION * FILE_DURATION.
Proof.
  pose proof FILE_DURATION_pos. unfold alignedStart.
  pose proof (Z.div_mod x FILE_DURATION ltac:(lia)).
  pose proof (Z.mod_pos_bound x FILE_DURATION ltac:(lia)). lia.
Qed.

Lemma alignedCeil_spec (x : Z) :
  x <= alignedCeil x < x + FILE_DURATION
  /\ alignedCeil x = - ((- x) / FILE_DURATION) * FILE_DURATION
  /\ (alignedCeil x = x <-> x mod FILE_DURATION = 0).
Proof.
  pose proof FILE_DURATION_pos. unfold alignedCeil.
  rewrite <- ceil_by_mod by lia.
  pose proof (Z.mod_pos_bound x FILE_DURATION ltac:(lia)).
  destruct (Z.eqb_spec (x mod FILE_DURATION) 0); split; try split; lia.
Qed.



Section Plan.
Context `{SortSlice}.

Lemma plan_starts (l : list MonitorData) : l <> [] ->
  map unix_ns (plan (sortData l))
  = map (fun k => alignedStart (min_ts l) + Z.of_nat k * FILE_DURATION)
        (seq 0 (Z.to_nat ((alignedCeil (max_ts l) - alignedStart (min_ts l))
                          / FILE_DURATION))).
Proof.
  intros Hne. destruct (sortData l) as [|first rest] eqn:E.
  { pose proof (sortData_perm l) as Hp. rewrite E in Hp.
    apply Permutation_nil in Hp. congruence. }
  destruct (sortData_ends l first rest E) as [Hf Hl].
  rewrite plan_closed, <- Hf, <- Hl. unfold window_starts. rewrite map_map.
  apply map_ext. intro k. unfold Add; cbn [unix_ns].
  destruct (roundDown_aligned (parsed first)) as [-> _]. reflexivity.
Qed.

End Plan.

(** ** Helpers for concrete batches *)

Fixpoint nodupb (l : list Z) : bool :=
  match l with
  | [] => true
  | x :: l' => negb (existsb (Z.eqb x) l') && nodupb l'
  end.

Lemma nodupb_NoDup (l : list Z) : nodupb l = true -> NoDup l.
Proof.
  induction l as [|x l IH]; simpl; intro Hb; constructor.
  - apply andb_true_iff in Hb as [Hn _]. apply negb_true_iff in Hn.
    intro Hin. assert (existsb (Z.eqb x) l = true) as Ht.
    { apply existsb_exists. exists x. split; [auto|apply Z.eqb_refl]. }
    congruence.
  - apply andb_true_iff in Hb as [_ Hb]. auto.
Qed.


Definition badBatch : list MonitorData :=
  [rec "m1" "2024-03-01T10:00:00Z" "1"; rec "m1" "2024-02-30T10:00:00Z" "2"].

Definition tieAB : list MonitorData :=
  [rec "m1" "2024-03-01T10:01:00Z" "a"; rec "m1" "2024-03-01T10:01:00Z" "b"].

Definition tieBA : list MonitorData :=
  [rec "m1" "2024-03-01T10:01:00Z" "b"; rec "m1" "2024-03-01T10:01:00Z" "a"].

Definition bucket_values (r : option (list (list MonitorData * Time)))
  : option (list (list GoMap)) :=
  option_map (map (fun c => map Values (fst c))) r.

(** Whether an id contains the key separator '/'. *)
Definition has_slash (s : string) : bool :=
  existsb (Ascii.eqb "/") (list_ascii_of_string s).

(** The object key of every [compileAndStoreinS3] call of a run. *)
Definition call_keys (r : option (list (list MonitorData * Time)))
  : option (list (option string)) :=
  option_map (map (fun c => option_map Key (compileAndStoreinS3 (fst c) (snd c)))) r.

(** ** [Format] prints distinct second-aligned instants of one zone differently

    [civil_from_days] inverts [days_from_civil]: checked day by day over one
    400-year era (the rest follows from the 146097-day period), together with
    the ranges of month, day and year of era. *)

Definition era_ok (doe : Z) : bool :=
  let '(ya, m, d) := civil_in_era doe in
  (1 <=? m) && (m <=? 12) && (1 <=? d) && (d <=? 31) && (0 <=? ya)
  && (if doe <? 146037 then ya <=? 399 else ya =? 400)
  && (days_from_civil ya m d =? doe - 719468).

Definition check_from (n : positive) (z : Z) : bool :=
  Pos.iter (fun k (z : Z) => era_ok z && k (z + 1)) (fun _ => true) n z.

(** The table of one era, evaluated. *)
Lemma era_table : check_from 146097 0 = true.
Proof. vm_compute. reflexivity. Qed.

Lemma check_from_spec (p : positive) :
  forall z i, check_from p z = true -> z <= i < z + Z.pos p -> era_ok i = true.
Proof.
  unfold check_from.
  induction p as [|p IH] using Pos.peano_ind; intros z i H Hi.
  - cbn [Pos.iter] in H. replace i with z by lia.
    destruct (era_ok z); [reflexivity|discriminate].
  - rewrite Pos.iter_succ in H. apply andb_true_iff in H as [H1 H2].
    destruct (Z.eq_dec i z) as [->|Hne]; [exact H1|].
    apply (IH (z + 1)); [exact H2|]. rewrite Pos2Z.inj_succ in Hi. lia.
Qed.

Lemma era_ok_spec (doe ya m d : Z) :
  0 <= doe < 146097 -> civil_in_era doe = (ya, m, d) ->
  1 <= m <= 12 /\ 1 <= d <= 31 /\ 0 <= ya
  /\ (doe < 146037 -> ya <= 399) /\ (146037 <= doe -> ya = 400)
  /\ days_from_civil ya m d = doe - 719468.
Proof.
  intros Hdoe E.
  pose proof (check_from_spec 146097 0 doe era_table ltac:(lia)) as Ok.
  unfold era_ok in Ok. rewrite E in Ok.
  destruct (doe <? 146037) eqn:Ed;
    [apply Z.ltb_lt in Ed|apply Z.ltb_ge in Ed];
    repeat rewrite andb_true_iff in Ok;
    destruct Ok as [[[[[[H1 H2] H3] H4] H5] H6] H7];
    rewrite ?Z.leb_le, ?Z.eqb_eq in *; lia.
Qed.

Lemma days_from_civil_era (e y m d : Z) :
  days_from_civil (e * 400 + y) m d = e * 146097 + days_from_civil y m d.
Proof.
  unfold days_from_civil. cbv zeta.
  assert (Ey : (if m <=? 2 then e * 400 + y - 1 else e * 400 + y)
               = (if m <=? 2 then y - 1 else y) + e * 400)
    by (destruct (m <=? 2); ring).
  rewrite Ey. set (y' := if m <=? 2 then y - 1 else y).
  rewrite Z.div_add by lia.
  replace (y' + e * 400 - (y' / 400 + e) * 400) with (y' - y' / 400 * 400) by ring.
  ring.
Qed.

Lemma civil_from_days_spec (z y m d : Z) :
  civil_from_days z = (y, m, d) ->
  days_from_civil y m d = z /\ 1 <= m <= 12 /\ 1 <= d <= 31
  /\ (-719528 <= z < 2932897 -> 0 <= y <= 9999).
Proof.
  unfold civil_from_days. cbv zeta.
  pose proof (Z.div_mod (z + 719468) 146097 ltac:(lia)) as Hz.
  pose proof (Z.mod_pos_bound (z + 719468) 146097 ltac:(lia)) as Hb.
  destruct (civil_in_era ((z + 719468) mod 146097)) as [[ya m'] d'] eqn:E.
  intro H. injection H as <- <- <-.
  apply era_ok_spec in E as (Hm & Hd & Hy0 & Hlo & Hhi & Hdays); [|exact Hb].
  rewrite days_from_civil_era, Hdays.
  set (era := (z + 719468) / 146097) in *.
  set (doe := (z + 719468) mod 146097) in *.
  split; [lia|split; [lia|split; [lia|]]].
  intro Hr. destruct (Z_lt_le_dec doe 146037) as [Hl|Hl].
  - specialize (Hlo Hl). lia.
  - specialize (Hhi Hl). lia.
Qed.

Lemma length_dec (k : nat) (n : Z) : List.length (dec k n) = k.
Proof.
  revert n. induction k as [|k IH]; intro n; [reflexivity|].
  cbn [dec]. rewrite length_app, IH. simpl. lia.
Qed.

Lemma mod_mul_split (a b c : Z) :
  0 < b -> 0 < c -> a mod (b * c) = a mod b + b * ((a / b) mod c).
Proof.
  intros Hb Hc. rewrite !Z.mod_eq by lia. rewrite Z.div_div by lia. ring.
Qed.

Lemma dec_inj (k : nat) :
  forall a b, dec k a = dec k b -> a mod 10 ^ Z.of_nat k = b mod 10 ^ Z.of_nat k.
Proof.
  induction k as [|k IH]; intros a b H.
  - change (10 ^ Z.of_nat 0) with 1. rewrite !Z.mod_1_r. reflexivity.
  - cbn [dec] in H. apply app_inj_tail in H as [H1 H2].
    apply IH in H1.
    assert (Hab : a mod 10 = b mod 10).
    { pose proof (Z.mod_pos_bound a 10 ltac:(lia)).
      pose proof (Z.mod_pos_bound b 10 ltac:(lia)).
      apply (f_equal nat_of_ascii) in H2.
      rewrite !nat_ascii_embedding in H2 by lia. lia. }
    pose proof (Z.pow_pos_nonneg 10 (Z.of_nat k) ltac:(lia) ltac:(lia)).
    rewrite Nat2Z.inj_succ, Z.pow_succ_r by lia.
    rewrite !mod_mul_split by lia. rewrite Hab, H1. reflexivity.
Qed.

Lemma ndigits_fuel_le (f : nat) :
  forall x n, 0 <= x < 10 ^ Z.of_nat n -> (1 <= n)%nat -> (ndigits_fuel f x <= n)%nat.
Proof.
  induction f as [|f IH]; intros x n Hx Hn; cbn [ndigits_fuel]; [lia|].
  destruct (x <? 10) eqn:E; [lia|]. apply Z.ltb_ge in E.
  destruct n as [|[|n]]; [lia| |].
  - change (10 ^ Z.of_nat 1) with 10 in Hx. lia.
  - enough (ndigits_fuel f (x / 10) <= S n)%nat by lia.
    apply IH; [|lia].
    rewrite Nat2Z.inj_succ with (n := S n), Z.pow_succ_r in Hx by lia.
    split; [apply Z.div_pos; lia|]. apply Z.div_lt_upper_bound; lia.
Qed.

Lemma appendInt_dec (x : Z) (w : nat) :
  0 <= x < 10 ^ Z.of_nat w -> (1 <= w)%nat -> appendInt x w = dec w x.
Proof.
  intros Hx Hw. unfold appendInt.
  replace (x <? 0) with false by (symmetry; apply Z.ltb_ge; lia).
  rewrite Z.abs_eq by lia. rewrite Nat.max_l by (apply ndigits_fuel_le; lia).
  reflexivity.
Qed.

Lemma appendInt_fixed (w : nat) (a b : Z) :
  (1 <= w)%nat -> 0 <= a < 10 ^ Z.of_nat w -> 0 <= b < 10 ^ Z.of_nat w ->
  List.length (appendInt a w) = w
  /\ (appendInt a w = appendInt b w -> a = b).
Proof.
  intros Hw Ha Hb. rewrite !appendInt_dec by assumption.
  split; [apply length_dec|].
  intro H. apply dec_inj in H. rewrite !Z.mod_small in H by lia. exact H.
Qed.

Lemma app_len_inv {A} (a c b d : list A) :
  List.length a = List.length c -> (a ++ b)%list = (c ++ d)%list -> a = c /\ b = d.
Proof.
  revert c. induction a as [|x a IH]; intros [|y c] Hl H; try discriminate.
  - split; [reflexivity|exact H].
  - injection H as -> H. injection Hl as Hl.
    destruct (IH c Hl H) as [-> ->]. split; reflexivity.
Qed.

Lemma app_sep_inv {A} (s : A) (a c b d : list A) :
  List.length a = List.length c -> (a ++ [s] ++ b)%list = (c ++ [s] ++ d)%list ->
  a = c /\ b = d.
Proof.
  intros Hl H. apply app_len_inv in H as [-> H]; [|exact Hl].
  injection H as H. split; [reflexivity|exact H].
Qed.

(** [Format] is injective on instants of one zone offset that lie on whole
    seconds and whose local date is in years 0000 to 9999. *)
Lemma Format_inj (t1 t2 : Time) :
  zone_off t1 = zone_off t2 ->
  unix_ns t1 mod Second = 0 -> unix_ns t2 mod Second = 0 ->
  -719528 * 86400 <= unix_ns t1 / Second + zone_off t1 < 2932897 * 86400 ->
  -719528 * 86400 <= unix_ns t2 / Second + zone_off t2 < 2932897 * 86400 ->
  Format t1 = Format t2 -> t1 = t2.
Proof.
  destruct t1 as [n1 o], t2 as [n2 o2]; cbn [unix_ns zone_off].
  intros <- Hn1 Hn2 Hr1 Hr2 H.
  unfold Format in H. cbn [unix_ns zone_off] in H. cbv zeta in H.
  set (l1 := n1 / Second + o) in *. set (l2 := n2 / Second + o) in *.
  pose proof (Z.div_mod l1 86400 ltac:(lia)) as El1.
  pose proof (Z.div_mod l2 86400 ltac:(lia)) as El2.
  pose proof (Z.mod_pos_bound l1 86400 ltac:(lia)) as Bs1.
  pose proof (Z.mod_pos_bound l2 86400 ltac:(lia)) as Bs2.
  set (s1 := l1 mod 86400) in *. set (s2 := l2 mod 86400) in *.
  destruct (civil_from_days (l1 / 86400)) as [[y1 m1] d1] eqn:E1.
  destruct (civil_from_days (l2 / 86400)) as [[y2 m2] d2] eqn:E2.
  apply civil_from_days_spec in E1 as (D1 & Hm1 & Hd1 & Hy1).
  apply civil_from_days_spec in E2 as (D2 & Hm2 & Hd2 & Hy2).
  specialize (Hy1 ltac:(lia)). specialize (Hy2 ltac:(lia)).
  apply (f_equal list_ascii_of_string) in H.
  rewrite !list_ascii_of_string_of_list_ascii in H.
  assert (P4 : forall a b, 0 <= a <= 9999 -> 0 <= b <= 9999 ->
            List.length (appendInt a 4) = List.length (appendInt b 4)
            /\ (appendInt a 4 = appendInt b 4 -> a = b)).
  { intros a b Ha Hb.
    destruct (appendInt_fixed 4 a b) as [La Ia];
      [lia|change (10 ^ Z.of_nat 4) with 10000; lia
          |change (10 ^ Z.of_nat 4) with 10000; lia|].
    destruct (appendInt_fixed 4 b a) as [Lb _];
      [lia|change (10 ^ Z.of_nat 4) with 10000; lia
          |change (10 ^ Z.of_nat 4) with 10000; lia|].
    split; [congruence|exact Ia]. }
  assert (P2 : forall a b, 0 <= a <= 99 -> 0 <= b <= 99 ->
            List.length (appendInt a 2) = List.length (appendInt b 2)
            /\ (appendInt a 2 = appendInt b 2 -> a = b)).
  { intros a b Ha Hb.
    destruct (appendInt_fixed 2 a b) as [La Ia];
      [lia|change (10 ^ Z.of_nat 2) with 100; lia
          |change (10 ^ Z.of_nat 2) with 100; lia|].
    destruct (appendInt_fixed 2 b a) as [Lb _];
      [lia|change (10 ^ Z.of_nat 2) with 100; lia
          |change (10 ^ Z.of_nat 2) with 100; lia|].
    split; [congruence|exact Ia]. }
  pose proof (Z.div_mod s1 3600 ltac:(lia)). pose proof (Z.div_mod s2 3600 ltac:(lia)).
  pose proof (Z.mod_pos_bound s1 3600 ltac:(lia)).
  pose proof (Z.mod_pos_bound s2 3600 ltac:(lia)).
  pose proof (Z.div_mod (s1 mod 3600) 60 ltac:(lia)).
  pose proof (Z.div_mod (s2 mod 3600) 60 ltac:(lia)).
  pose proof (Z.mod_pos_bound (s1 mod 3600) 60 ltac:(lia)).
  pose proof (Z.mod_pos_bound (s2 mod 3600) 60 ltac:(lia)).
  pose proof (Z.div_mod s1 60 ltac:(lia)). pose proof (Z.div_mod s2 60 ltac:(lia)).
  pose proof (Z.mod_pos_bound s1 60 ltac:(lia)).
  pose proof (Z.mod_pos_bound s2 60 ltac:(lia)).
  destruct (P4 y1 y2) as [L I]; [lia|lia|].
  apply app_sep_inv in H as [Ey H]; [|exact L]. apply I in Ey.
  destruct (P2 m1 m2) as [L' I']; [lia|lia|].
  apply app_sep_inv in H as [Em H]; [|exact L']. apply I' in Em.
  destruct (P2 d1 d2) as [L'' I'']; [lia|lia|].
  apply app_sep_inv in H as [Ed H]; [|exact L'']. apply I'' in Ed.
  destruct (P2 (s1 / 3600) (s2 / 3600)) as [Lh Ih]; [lia|lia|].
  apply app_sep_inv in H as [Eh H]; [|exact Lh]. apply Ih in Eh.
  destruct (P2 (s1 mod 3600 / 60) (s2 mod 3600 / 60)) as [Lm Im]; [lia|lia|].
  apply app_sep_inv in H as [Emi H]; [|exact Lm]. apply Im in Emi.
  destruct (P2 (s1 mod 60) (s2 mod 60)) as [Ls Is]; [lia|lia|].
  apply app_len_inv in H as [Es _]; [|exact Ls]. apply Is in Es.
  subst y2 m2 d2.
  assert (Eloc : l1 = l2) by lia.
  pose proof (Z.div_mod n1 Second ltac:(unfold Second; lia)).
  pose proof (Z.div_mod n2 Second ltac:(unfold Second; lia)).
  unfold l1, l2 in Eloc.
  f_equal. lia.
Qed.

Lemma has_slash_false (s : string) :
  has_slash s = false -> ~ In "/"%char (list_ascii_of_string s).
Proof.
  unfold has_slash. intros H Hin.
  assert (existsb (Ascii.eqb "/") (list_ascii_of_string s) = true) as Ht
    by (apply existsb_exists; exists "/"%char; split; [exact Hin|reflexivity]).
  congruence.
Qed.

Lemma list_ascii_of_string_append (s1 s2 : string) :
  list_ascii_of_string (s1 ++ s2) = (list_ascii_of_string s1 ++ list_ascii_of_string s2)%list.
Proof. induction s1 as [|c s1 IH]; simpl; congruence. Qed.

Lemma split_at_slash (a c b d : list ascii) :
  ~ In "/"%char a -> ~ In "/"%char c ->
  (a ++ ["/"%char] ++ b)%list = (c ++ ["/"%char] ++ d)%list -> a = c /\ b = d.
Proof.
  revert c. induction a as [|x a IH]; intros [|y c] Ha Hc H; simpl in H.
  - injection H as H. split; [reflexivity|exact H].
  - injection H as Ey _. subst y. exfalso. apply Hc. left. reflexivity.
  - injection H as Ex _. subst x. exfalso. apply Ha. left. reflexivity.
  - injection H as -> H.
    destruct (IH c) as [-> ->];
      [intro; apply Ha; right; assumption|intro; apply Hc; right; assumption
      |exact H|].
    split; reflexivity.
Qed.

Lemma key_inj (o1 m1 o2 m2 : string) (s1 s2 : Time) :
  has_slash o1 = false -> has_slash m1 = false ->
  has_slash o2 = false -> has_slash m2 = false ->
  (o1 ++ "/" ++ m1 ++ "/" ++ Format s1 ++ "-data.json")
  = (o2 ++ "/" ++ m2 ++ "/" ++ Format s2 ++ "-data.json") ->
  o1 = o2 /\ m1 = m2 /\ Format s1 = Format s2.
Proof.
  intros Ho1 Hm1 Ho2 Hm2 H.
  apply (f_equal list_ascii_of_string) in H.
  rewrite !list_ascii_of_string_append in H.
  change (list_ascii_of_string "/") with ["/"%char] in H.
  apply split_at_slash in H as [Eo H];
    [|apply has_slash_false; assumption|apply has_slash_false; assumption].
  apply split_at_slash in H as [Em H];
    [|apply has_slash_false; assumption|apply has_slash_false; assumption].
  apply app_inv_tail in H.
  apply (f_equal string_of_list_ascii) in Eo, Em, H.
  rewrite !string_of_list_ascii_of_string in Eo, Em, H.
  split; [exact Eo|split; [exact Em|exact H]].
Qed.

(** ** Claims *)

(** C7: for a positive duration [d], rounding to the nearest multiple of
    [d] and stepping back by [d] when the result lies after [t] is the floor
    alignment [floor(t / d) * d] of the time elapsed since Go's zero time,
    keeps the zone offset, and equals the Unix-epoch floor whenever [d]
    divides the zero time's Unix offset (as [FILE_DURATION] does). *)
Theorem roundDown_floor (t : Time) (d : Duration) (Hd : 0 < d) :
  unix_ns (roundDown t d) - unix_ns zeroTime = (unix_ns t - unix_ns zeroTime) / d * d
  /\ zone_off (roundDown t d) = zone_off t
  /\ (unix_ns zeroTime mod d = 0 -> unix_ns (roundDown t d) = unix_ns t / d * d).
Proof.
  rewrite roundDown_spec by exact Hd. cbn [unix_ns zone_off].
  pose proof (Z.div_mod (unix_ns t - unix_ns zeroTime) d ltac:(lia)).
  split; [lia|split; [reflexivity|]].
  intro Hz.
  pose proof (Z.div_mod (unix_ns zeroTime) d ltac:(lia)) as Ez.
  rewrite Hz, Z.add_0_r in Ez.
  replace (unix_ns t - unix_ns zeroTime)
    with (unix_ns t + (- (unix_ns zeroTime / d)) * d) by lia.
  rewrite Z.mod_add by lia.
  pose proof (Z.div_mod (unix_ns t) d ltac:(lia)). lia.
Qed.

Lemma roundDown_floor_witness :
  0 < FILE_DURATION
  /\ unix_ns (roundDown (parsed (rec "m1" "2024-03-01T10:07:10Z" "1")) FILE_DURATION)
     = unix_ns (parsed (rec "m1" "2024-03-01T10:07:10Z" "1")) / FILE_DURATION
       * FILE_DURATION.
Proof.
  split; [reflexivity|].
  apply (roundDown_floor (parsed (rec "m1" "2024-03-01T10:07:10Z" "1"))
           FILE_DURATION (eq_refl : 0 < FILE_DURATION)).
  reflexivity.
Defined.

(** C8: a slot with no records yields no upload request and nothing is
    stored; every upload request that is built carries at least one entry. *)
Theorem empty_slot_not_stored :
  (forall slotStartTime, compileAndStoreinS3 [] slotStartTime = None)
  /\ (forall putObject slotStartTime, store putObject ([], slotStartTime) = [])
  /\ (forall splitDataArray slotStartTime input,
        compileAndStoreinS3 splitDataArray slotStartTime = Some input ->
        exists c, Body input = marshal_CompiledMonitorData c
                  /\ CompiledMonitorData.Entries c <> []).
Proof.
  split; [reflexivity|split; [reflexivity|]].
  intros [|first rest] s input Hc; [discriminate|].
  simpl in Hc. injection Hc as <-. eexists. split; [reflexivity|]. discriminate.
Qed.

Lemma empty_slot_not_stored_witness :
  exists input,
    compileAndStoreinS3 [rec "m1" "2024-03-01T10:02:30Z" "2"] zeroTime = Some input
    /\ exists c, Body input = marshal_CompiledMonitorData c
                 /\ CompiledMonitorData.Entries c <> [].
Proof.
  eexists. split; [reflexivity|].
  apply (proj2 (proj2 empty_slot_not_stored)
           [rec "m1" "2024-03-01T10:02:30Z" "2"] zeroTime). reflexivity.
Defined.

(** C10: in every uploaded document each entry is the JSON object
    [{"timestamp": ..., "monitorId": <values map>}]: the record's values map
    is written under the field name "monitorId" (the [json] tag of
    [Entry.Values]), its timestamp under "timestamp". *)
Theorem entry_values_under_monitorId (first : MonitorData) (rest : list MonitorData)
    (slotStartTime : Time) (input : PutObjectInput) :
  compileAndStoreinS3 (first :: rest) slotStartTime = Some input ->
  Body input
  = JObject [("monitorId", JString (MonitorId first));
             ("orgId", JString (OrgId first));
             ("startTime", JString (Format slotStartTime));
             ("entries",
              JArray (map (fun data =>
                             JObject [("timestamp", JString (Timestamp data));
                                      ("monitorId", marshal_map (Values data))])
                          (first :: rest)))].
Proof.
  simpl. intro Hc. injection Hc as <-. simpl. unfold marshal_CompiledMonitorData.
  simpl. rewrite map_map. reflexivity.
Qed.

Lemma entry_values_under_monitorId_witness :
  exists input,
    compileAndStoreinS3 [rec "m1" "2024-03-01T10:02:30Z" "2"] zeroTime = Some input
    /\ Body input
       = JObject [("monitorId", JString "m1"); ("orgId", JString "org1");
                  ("startTime", JString (Format zeroTime));
                  ("entries",
                   JArray [JObject [("timestamp", JString "2024-03-01T10:02:30Z");
                                    ("monitorId", JObject [("v", JNumber "2")])]])].
Proof.
  eexists. split; [reflexivity|].
  apply (entry_values_under_monitorId (rec "m1" "2024-03-01T10:02:30Z" "2") []
           zeroTime). reflexivity.
Defined.

Section PlanClaims.
Context `{SortSlice}.



End PlanClaims.

#[local] Existing Instance GoInsertionSort.





(** C1 (the code's slot test is strict at both ends): in scenario A
    (10:07:10, 10:00:00, 10:02:30) the record at 10:00:00 lies on the start
    of slot [10:00, 10:05) and is put in no slot, whatever sorting routine
    runs. *)
Theorem scenarioA_boundary_record_dropped (S : SortSlice) :
  option_map (flat_map (fun c => map Timestamp (fst c)))
    (@compileMonitorData S scenarioA)
  = Some ["2024-03-01T10:02:30Z"; "2024-03-01T10:07:10Z"].
Proof.
  rewrite (compileMonitorData_canonical S GoInsertionSort scenarioA scenarioA
             (Permutation_refl _)
             (nodupb_NoDup (map ts scenarioA) ltac:(vm_compute; reflexivity))).
  vm_compute. reflexivity.
Qed.

(** C5 refuted: two records with the same timestamp, given in the two
    possible orders, produce different entry sequences with Go's
    [sort.Slice] on short slices. *)
Lemma tie_order_depends_on_input_order :
  Permutation tieAB tieBA
  /\ bucket_values (compileMonitorData tieAB) <> bucket_values (compileMonitorData tieBA).
Proof.
  split; [apply perm_swap|]. vm_compute. congruence.
Qed.

Lemma StronglySorted_filter {A} (R : A -> A -> Prop) (f : A -> bool) (l : list A) :
  StronglySorted R l -> StronglySorted R (filter f l).
Proof.
  induction l as [|a l IH]; intro Hs; simpl; [constructor|].
  apply StronglySorted_inv in Hs as [Hs Ha].
  destruct (f a); [|auto]. constructor; [auto|].
  rewrite Forall_forall in *. intros x Hx. apply filter_In in Hx as [Hx _]. auto.
Qed.

(** [insertionSort] is stable: the records with a given key keep their
    input order. *)
Lemma insert_left_filter_key {A} (key : A -> Z) (less : A -> A -> bool) (k : Z)
    (Hl : forall a b, less a b = (key a <? key b)) (x : A) (rp : list A) :
  filter (fun a => key a =? k) (insert_left less x rp)
  = if key x =? k then x :: filter (fun a => key a =? k) rp
    else filter (fun a => key a =? k) rp.
Proof.
  induction rp as [|y rp IH]; cbn [insert_left].
  - cbn. destruct (key x =? k); reflexivity.
  - rewrite Hl. destruct (Z.ltb_spec (key x) (key y)) as [Hxy|Hxy].
    + cbn [filter]. rewrite IH.
      destruct (Z.eqb_spec (key y) k), (Z.eqb_spec (key x) k); try lia; reflexivity.
    + cbn [filter]. reflexivity.
Qed.

Lemma filter_rev {A} (f : A -> bool) (l : list A) :
  filter f (rev l) = rev (filter f l).
Proof.
  induction l as [|a l IH]; cbn [rev filter]; [reflexivity|].
  rewrite filter_app, IH. cbn [filter]. destruct (f a); cbn; [reflexivity|].
  apply app_nil_r.
Qed.

Lemma insertionSort_stable {A} (key : A -> Z) (less : A -> A -> bool) (k : Z)
    (Hl : forall a b, less a b = (key a <? key b)) (l : list A) :
  filter (fun a => key a =? k) (insertionSort less l) = filter (fun a => key a =? k) l.
Proof.
  unfold insertionSort. rewrite filter_rev.
  assert (G : forall rp, filter (fun a => key a =? k)
                           (fold_left (fun rp x => insert_left less x rp) l rp)
                         = (rev (filter (fun a => key a =? k) l)
                            ++ filter (fun a => key a =? k) rp)%list).
  { induction l as [|x l IH]; intro rp; cbn [fold_left filter rev]; [reflexivity|].
    rewrite IH, insert_left_filter_key by exact Hl.
    destruct (key x =? k); cbn [rev]; [rewrite <- app_assoc; reflexivity|reflexivity]. }
  rewrite G. cbn [filter]. rewrite app_nil_r, rev_involutive. reflexivity.
Qed.

Lemma filter_andb {A} (f g : A -> bool) (l : list A) :
  filter f (filter g l) = filter (fun x => g x && f x) l.
Proof.
  induction l as [|a l IH]; cbn [filter]; [reflexivity|].
  destruct (g a); cbn [filter andb]; [destruct (f a)|]; rewrite IH; reflexivity.
Qed.

Lemma filter_comm {A} (f g : A -> bool) (l : list A) :
  filter f (filter g l) = filter g (filter f l).
Proof.
  rewrite !filter_andb. apply filter_ext. intro a. apply andb_comm.
Qed.

(** C5 (as the code does it): every bucket lists its records by ascending
    timestamp, for any sorting routine meeting the contract of
    [sort.Slice]; when the timestamps of the batch are pairwise distinct,
    any reordering of the input (and any such sorting routine) yields the
    same slot calls, hence the same entry sequences; and for a batch of at
    most 12 records, where Go's [sort.Slice] runs insertion sort, the
    records of a bucket with equal timestamps keep their input order. *)
Theorem compile_permutation_invariant (S1 S2 : SortSlice) (l1 l2 : list MonitorData) :
  (forall calls c, @compileMonitorData S1 l1 = Some calls -> In c calls ->
     StronglySorted (fun a b => ts a <= ts b) (fst c))
  /\ (Permutation l1 l2 -> NoDup (map ts l1) ->
      @compileMonitorData S1 l1 = @compileMonitorData S2 l2)
  /\ ((List.length l1 <= 12)%nat ->
      forall calls c k, @compileMonitorData GoInsertionSort l1 = Some calls -> In c calls ->
        filter (fun d => ts d =? k) (fst c)
        = filter (fun d => in_slot (snd c) d && (ts d =? k)) l1).
Proof.
  split; [|split].
  - intros calls c Hc Hin.
    pose proof (@sortData_sorted S1 l1) as Hs. unfold compileMonitorData in Hc.
    destruct (@sortData S1 l1) as [|m l]; [discriminate|].
    injection Hc as <-. apply in_map_iff in Hin as [s [<- _]]. cbn [fst].
    change (StronglySorted (fun a b => ts a <= ts b) (filter (in_slot s) (m :: l))).
    apply StronglySorted_filter, Hs.
  - intros Hp Hd. apply compileMonitorData_canonical; assumption.
  - intros _ calls c k Hc Hin.
    assert (Hst : filter (fun d => ts d =? k) (@sortData GoInsertionSort l1)
                  = filter (fun d => ts d =? k) l1)
      by (apply (insertionSort_stable ts less_timestamp k); reflexivity).
    unfold compileMonitorData in Hc.
    destruct (@sortData GoInsertionSort l1) as [|m l] eqn:E; [discriminate|].
    injection Hc as <-. apply in_map_iff in Hin as [s [<- _]]. try rewrite <- E.
    change (filter (fun d => ts d =? k)
              (filter (in_slot s) (m :: l))
            = filter (fun d => in_slot s d && (ts d =? k)) l1).
    rewrite filter_comm, Hst, filter_comm, filter_andb.
    reflexivity.
Qed.

Lemma compile_permutation_invariant_witness :
  Permutation scenarioA (rev scenarioA) /\ NoDup (map ts scenarioA)
  /\ compileMonitorData scenarioA = compileMonitorData (rev scenarioA).
Proof.
  assert (Hp : Permutation scenarioA (rev scenarioA)) by apply Permutation_rev.
  assert (Hd : NoDup (map ts scenarioA))
    by (apply nodupb_NoDup; vm_compute; reflexivity).
  split; [exact Hp|split; [exact Hd|]].
  apply (proj1 (proj2 (compile_permutation_invariant GoInsertionSort GoInsertionSort
                         scenarioA (rev scenarioA))) Hp Hd).
Defined.

(** C6 (the [less] closure and the plan ignore parse errors): the
    timestamp "2024-02-30T10:00:00Z" does not parse (February has no 30th
    day), yet it passes the scan filter of [fetchAllMonitorData], which
    compares strings byte by byte with the current time.  Such a record is
    not rejected; it is sorted as January 1, year 1 (the zero time), ahead
    of every real record, and the plan then runs from year 1: 212,816,280
    five-minute slots for a batch whose only other record is at
    2024-03-01T10:00:00Z. *)
Theorem unparseable_timestamp_sorted_as_year_one (S : SortSlice) :
  snd (Parse "2024-02-30T10:00:00Z") = Some ParseError
  /\ filterExpr (fst (Parse "2026-10-15T12:00:00Z"))
     = LessThan "Timestamp" "2026-10-15T12:00:00Z"
  /\ String.compare "2024-02-30T10:00:00Z" "2026-10-15T12:00:00Z" = Lt
  /\ map Timestamp (@sortData S badBatch)
     = ["2024-02-30T10:00:00Z"; "2024-03-01T10:00:00Z"]
  /\ @compileMonitorData S badBatch <> None
  /\ Z.of_nat (List.length (plan (@sortData S badBatch))) = 212816280.
Proof.
  assert (E : @sortData S badBatch
              = [rec "m1" "2024-02-30T10:00:00Z" "2"; rec "m1" "2024-03-01T10:00:00Z" "1"]).
  { rewrite (sortData_canonical S GoInsertionSort badBatch badBatch
               (Permutation_refl _)
               (nodupb_NoDup (map ts badBatch) ltac:(vm_compute; reflexivity))).
    vm_compute. reflexivity. }
  split; [vm_compute; reflexivity|].
  split; [vm_compute; reflexivity|].
  split; [vm_compute; reflexivity|].
  split; [rewrite E; reflexivity|split].
  - unfold compileMonitorData. rewrite E. discriminate.
  - rewrite <- (length_map unix_ns), plan_starts by discriminate.
    rewrite length_map, length_seq, Z2Nat.id by (vm_compute; discriminate).
    vm_compute. reflexivity.
Qed.

(** C3 fails: the error of [fetchAllMonitorData] is bound at line 72 and
    never read, unlike the configuration error (fatal) and the upload error
    (logged).  A failed fetch runs exactly like a fetch of no record: no
    upload, and the return value [("Hello " + event.Name, nil)].  A failed
    [PutObject] only leaves the log line "Got error uploading file:" with
    its error, and nothing about the uploads reaches the return value.  A
    failed [config.LoadDefaultConfig] ends in [log.Fatalf], which exits
    without returning. *)
Theorem handler_ignores_fetch_error (S : SortSlice) (event : Event)
    (all : list MonitorData) (err : option error)
    (putObject : PutObjectInput -> option error) :
  (forall e, @HandleRequest_full S (Some e) event (all, err) putObject = FatalExit e)
  /\ @HandleRequest_full S None event (all, err) putObject
     = Returns (@HandleRequest S event (all, None) putObject)
  /\ (forall e, @HandleRequest_full S None event ([], Some e) putObject
               = @HandleRequest_full S None event ([], None) putObject)
  /\ uploads (@HandleRequest S event ([], err) putObject) = []
  /\ returned (@HandleRequest S event (all, err) putObject) = ("Hello " ++ Name event, None)
  /\ (forall input line,
        In (input, line) (uploads (@HandleRequest S event (all, err) putObject)) ->
        forall e, putObject input = Some e -> line = LogUploadError e).
Proof.
  split; [reflexivity|]. split; [reflexivity|]. split; [reflexivity|].
  split; [reflexivity|]. split; [reflexivity|].
  intros input line Hin e He. unfold HandleRequest in Hin. cbn [uploads] in Hin.
  apply in_flat_map in Hin as [[k ds] [_ Hin]].
  destruct (@compileMonitorData S ds) as [calls|]; [|contradiction].
  apply in_flat_map in Hin as [[split s] [_ Hin]].
  unfold store in Hin.
  destruct (compileAndStoreinS3 split s) as [p|]; [|contradiction].
  destruct (putObject p) as [e'|] eqn:Ep.
  - destruct Hin as [Hin|[]]. injection Hin as <- <-. congruence.
  - destruct split as [|first rest]; [contradiction|].
    destruct Hin as [Hin|[]]. injection Hin as <- <-. congruence.
Qed.

Lemma plan_slot_form `{SortSlice} (first : MonitorData) (rest : list MonitorData) (s : Time) :
  In s (plan (first :: rest)) ->
  zone_off s = zone_off (parsed first) /\ unix_ns s mod FILE_DURATION = 0.
Proof.
  rewrite plan_closed. unfold window_starts. intro Hs.
  apply in_map_iff in Hs as [k [<- _]].
  destruct (roundDown_aligned (parsed first)) as [Hu Hz].
  unfold Add; cbn [unix_ns zone_off]. split; [exact Hz|].
  rewrite Hu. destruct (alignedStart_spec (unix_ns (parsed first))) as [_ ->].
  rewrite <- Z.mul_add_distr_r. apply Z.mod_mul. discriminate.
Qed.

(** C9 (as the code does it): the key of the upload for a slot is
    [orgId/monitorId/slotStartTime.Format(RFC3339)-data.json], with the ids
    of the slot's first record; every window start of [compileMonitorData]
    carries the zone offset of the first record after sorting, a record with
    the earliest timestamp, and is printed in that offset.  For ids without
    '/', window starts on whole seconds in one zone offset, and local dates
    in years 0000 to 9999, two uploads get the same key exactly when they
    have the same orgId, monitorId and window start. *)
Theorem sink_key_injective (first1 first2 : MonitorData)
    (rest1 rest2 : list MonitorData) (s1 s2 : Time) :
  option_map Key (compileAndStoreinS3 (first1 :: rest1) s1)
  = Some (OrgId first1 ++ "/" ++ MonitorId first1 ++ "/" ++ Format s1 ++ "-data.json")
  /\ (forall (S : SortSlice) (l : list MonitorData) calls c,
        @compileMonitorData S l = Some calls -> In c calls ->
        exists first rest, @sortData S l = first :: rest /\ ts first = min_ts l
          /\ zone_off (snd c) = zone_off (parsed first))
  /\ (has_slash (OrgId first1) = false -> has_slash (MonitorId first1) = false ->
      has_slash (OrgId first2) = false -> has_slash (MonitorId first2) = false ->
      zone_off s1 = zone_off s2 ->
      unix_ns s1 mod Second = 0 -> unix_ns s2 mod Second = 0 ->
      -719528 * 86400 <= unix_ns s1 / Second + zone_off s1 < 2932897 * 86400 ->
      -719528 * 86400 <= unix_ns s2 / Second + zone_off s2 < 2932897 * 86400 ->
      (option_map Key (compileAndStoreinS3 (first1 :: rest1) s1)
       = option_map Key (compileAndStoreinS3 (first2 :: rest2) s2)
       <-> OrgId first1 = OrgId first2 /\ MonitorId first1 = MonitorId first2
           /\ s1 = s2)).
Proof.
  split; [reflexivity|split].
  { intros S l calls c Hc Hin. unfold compileMonitorData in Hc.
    destruct (@sortData S l) as [|first rest] eqn:E; [discriminate|].
    injection Hc as <-. apply in_map_iff in Hin as [s [<- Hs]].
    exists first, rest. split; [reflexivity|split].
    - apply (proj1 (@sortData_ends S l first rest E)).
    - apply (proj1 (plan_slot_form first rest s Hs)). }
  intros Ho1 Hm1 Ho2 Hm2 Hz Hn1 Hn2 Hr1 Hr2. cbn [compileAndStoreinS3 option_map Key].
  split.
  - intro H. injection H as H.
    apply key_inj in H as (Eo & Em & Ef); try assumption.
    split; [exact Eo|split; [exact Em|]].
    apply Format_inj; assumption.
  - intros (-> & -> & ->). reflexivity.
Qed.

Lemma sink_key_injective_witness :
  option_map Key (compileAndStoreinS3 [rec "m1" "2024-03-01T10:02:30Z" "1"]
                    (fst (Parse "2024-03-01T10:00:00Z")))
  <> option_map Key (compileAndStoreinS3 [rec "m1" "2024-03-01T10:07:30Z" "2"]
                       (fst (Parse "2024-03-01T10:05:00Z"))).
Proof.
  intro H.
  destruct (proj2 (proj2 (sink_key_injective (rec "m1" "2024-03-01T10:02:30Z" "1")
                     (rec "m1" "2024-03-01T10:07:30Z" "2") [] []
                     (fst (Parse "2024-03-01T10:00:00Z"))
                     (fst (Parse "2024-03-01T10:05:00Z"))))
                  ltac:(vm_compute; reflexivity) ltac:(vm_compute; reflexivity)
                  ltac:(vm_compute; reflexivity) ltac:(vm_compute; reflexivity)
                  ltac:(vm_compute; reflexivity) ltac:(vm_compute; reflexivity)
                  ltac:(vm_compute; reflexivity)
                  ltac:(vm_compute; split; [discriminate|reflexivity])
                  ltac:(vm_compute; split; [discriminate|reflexivity])) as [Hk _].
  destruct (Hk H) as (_ & _ & Ht). vm_compute in Ht. discriminate.
Defined.

(** C9 refuted: the key is not collision-free per (entity, window) pair,
    since org "a/b" with monitor "c" and org "a" with monitor "b/c" share a
    key; and it is not a function of the window start alone, since the same
    record instant written in UTC or in +01:00 puts the same window under two
    different keys. *)
Lemma key_collisions :
  option_map Key (compileAndStoreinS3
                    [mkMonitorData "c" "2024-03-01T10:02:30Z" "a/b" None]
                    (fst (Parse "2024-03-01T10:00:00Z")))
  = option_map Key (compileAndStoreinS3
                      [mkMonitorData "b/c" "2024-03-01T10:02:30Z" "a" None]
                      (fst (Parse "2024-03-01T10:00:00Z")))
  /\ unix_ns (fst (Parse "2024-03-01T10:02:30Z"))
     = unix_ns (fst (Parse "2024-03-01T11:02:30+01:00"))
  /\ call_keys (compileMonitorData [rec "m1" "2024-03-01T10:02:30Z" "1"])
     = Some [Some "org1/m1/2024-03-01T10:00:00Z-data.json"]
  /\ call_keys (compileMonitorData [rec "m1" "2024-03-01T11:02:30+01:00" "1"])
     = Some [Some "org1/m1/2024-03-01T11:00:00+01:00-data.json"].
Proof. vm_compute. repeat split. Qed.

(** ** Further properties of the program *)

(** *** Grouping by monitor *)

Lemma lookup_add (k : string) (d : MonitorData) (m : list (string * list MonitorData)) :
  lookup_group k (add_to_group d m)
  = if String.eqb (MonitorId d) k then (lookup_group k m ++ [d])%list
    else lookup_group k m.
Proof.
  induction m as [|[k' ds] m IH]; cbn [add_to_group lookup_group].
  - destruct (String.eqb (MonitorId d) k); reflexivity.
  - destruct (String.eqb k' (MonitorId d)) eqn:E1.
    + apply String.eqb_eq in E1. subst k'. cbn [lookup_group].
      destruct (String.eqb (MonitorId d) k); reflexivity.
    + cbn [lookup_group]. destruct (String.eqb k' k) eqn:E2; [|exact IH].
      apply String.eqb_eq in E2. subst k'. rewrite String.eqb_sym, E1. reflexivity.
Qed.

Lemma lookup_fold (l : list MonitorData) :
  forall m k,
    lookup_group k (fold_left (fun m data => add_to_group data m) l m)
    = (lookup_group k m ++ filter (fun d => String.eqb (MonitorId d) k) l)%list.
Proof.
  induction l as [|a l IH]; intros m k; cbn [fold_left filter].
  - rewrite app_nil_r. reflexivity.
  - rewrite IH, lookup_add. destruct (String.eqb (MonitorId a) k).
    + rewrite <- app_assoc. reflexivity.
    + reflexivity.
Qed.

Lemma keys_add (d : MonitorData) (m : list (string * list MonitorData)) :
  map fst (add_to_group d m)
  = if existsb (String.eqb (MonitorId d)) (map fst m) then map fst m
    else (map fst m ++ [MonitorId d])%list.
Proof.
  induction m as [|[k' ds] m IH]; [reflexivity|].
  cbn [add_to_group map existsb fst].
  destruct (String.eqb k' (MonitorId d)) eqn:E1.
  - rewrite String.eqb_sym, E1. reflexivity.
  - rewrite String.eqb_sym, E1. cbn [orb map fst]. rewrite IH.
    destruct (existsb (String.eqb (MonitorId d)) (map fst m)); reflexivity.
Qed.

Lemma keys_add_in (d : MonitorData) (m : list (string * list MonitorData)) (k : string) :
  In k (map fst (add_to_group d m)) <-> In k (map fst m) \/ k = MonitorId d.
Proof.
  rewrite keys_add. destruct (existsb (String.eqb (MonitorId d)) (map fst m)) eqn:E.
  - apply existsb_exists in E as [k' [Hk' Ek]]. apply String.eqb_eq in Ek. subst k'.
    split; [auto|]. intros [H| ->]; assumption.
  - rewrite in_app_iff. simpl. split; intros [H|H]; auto.
    + destruct H as [->|[]]; auto.
Qed.

Lemma keys_add_nodup (d : MonitorData) (m : list (string * list MonitorData)) :
  NoDup (map fst m) -> NoDup (map fst (add_to_group d m)).
Proof.
  intro N. rewrite keys_add.
  destruct (existsb (String.eqb (MonitorId d)) (map fst m)) eqn:E; [exact N|].
  apply (Permutation_NoDup (Permutation_cons_append (map fst m) (MonitorId d))).
  constructor; [|exact N]. intro Hin.
  assert (existsb (String.eqb (MonitorId d)) (map fst m) = true)
    by (apply existsb_exists; exists (MonitorId d); split; [exact Hin|apply String.eqb_refl]).
  congruence.
Qed.

Lemma keys_fold (l : list MonitorData) :
  forall m k,
    (In k (map fst (fold_left (fun m data => add_to_group data m) l m))
     <-> In k (map fst m) \/ exists d, In d l /\ MonitorId d = k)
    /\ (NoDup (map fst m) ->
        NoDup (map fst (fold_left (fun m data => add_to_group data m) l m))).
Proof.
  induction l as [|a l IH]; intros m k; cbn [fold_left].
  - split; [|auto]. split; [auto|]. intros [H|[d [[] _]]]; exact H.
  - destruct (IH (add_to_group a m) k) as [IHin IHnd]. split.
    + rewrite IHin, keys_add_in. split.
      * intros [[H| ->]|[d [Hd Ed]]]; [auto| |].
        -- right. exists a. split; [left|]; reflexivity.
        -- right. exists d. split; [right|]; assumption.
      * intros [H|[d [[<-|Hd] Ed]]]; [auto| |].
        -- left. right. symmetry. exact Ed.
        -- right. exists d. split; assumption.
    + intro N. apply IHnd, keys_add_nodup, N.
Qed.

Lemma in_lookup (m : list (string * list MonitorData)) (k : string) (ds : list MonitorData) :
  NoDup (map fst m) -> In (k, ds) m -> ds = lookup_group k m.
Proof.
  induction m as [|[k' ds'] m IH]; intros N Hin; [destruct Hin|].
  cbn [map fst] in N. apply NoDup_cons_iff in N as [Nk N].
  cbn [lookup_group]. destruct Hin as [E|Hin].
  - injection E as -> ->. rewrite String.eqb_refl. reflexivity.
  - destruct (String.eqb k' k) eqn:E.
    + apply String.eqb_eq in E. subst k'. exfalso. apply Nk.
      apply (in_map fst) in Hin. exact Hin.
    + apply IH; assumption.
Qed.

Lemma concat_add (d : MonitorData) (m : list (string * list MonitorData)) :
  Permutation (List.concat (map snd (add_to_group d m))) (List.concat (map snd m) ++ [d])%list.
Proof.
  induction m as [|[k' ds] m IH]; [reflexivity|].
  cbn [add_to_group]. destruct (String.eqb k' (MonitorId d)); cbn [map snd List.concat].
  - rewrite <- !app_assoc. apply Permutation_app_head, Permutation_app_comm.
  - rewrite <- app_assoc. apply Permutation_app_head, IH.
Qed.

Lemma concat_fold (l : list MonitorData) :
  forall m,
    Permutation (List.concat (map snd (fold_left (fun m data => add_to_group data m) l m)))
                (List.concat (map snd m) ++ l)%list.
Proof.
  induction l as [|a l IH]; intro m; cbn [fold_left].
  - rewrite app_nil_r. reflexivity.
  - rewrite IH, concat_add, <- app_assoc. reflexivity.
Qed.

(** *** The records that reach the files of one monitor *)

Lemma filter_app_sorted {A} (key : A -> Z) (p q : A -> bool) (l : list A) :
  StronglySorted (fun a b => key a <= key b) l ->
  (forall x y, In x l -> In y l -> p x = true -> q y = true -> key x < key y) ->
  (filter p l ++ filter q l)%list = filter (fun x => p x || q x) l.
Proof.
  induction l as [|a l IH]; intros Hs Hpq; [reflexivity|].
  apply StronglySorted_inv in Hs as [Hs Ha]. rewrite Forall_forall in Ha.
  assert (IH' : (filter p l ++ filter q l)%list = filter (fun x => p x || q x) l)
    by (apply IH; [exact Hs|intros x y Hx Hy; apply Hpq; right; assumption]).
  cbn [filter]. destruct (p a) eqn:Pa; cbn [orb].
  - destruct (q a) eqn:Qa.
    + specialize (Hpq a a (or_introl eq_refl) (or_introl eq_refl) Pa Qa). lia.
    + cbn [app]. rewrite IH'. reflexivity.
  - destruct (q a) eqn:Qa; cbn [orb].
    + assert (E : filter p l = []).
      { destruct (filter p l) as [|x r] eqn:F; [reflexivity|exfalso].
        assert (Hx : In x (filter p l)) by (rewrite F; left; reflexivity).
        apply filter_In in Hx as [Hx Px].
        specialize (Hpq x a (or_intror Hx) (or_introl eq_refl) Px Qa).
        specialize (Ha x Hx). lia. }
      rewrite E in IH' |- *. cbn [app]. rewrite <- IH'. reflexivity.
    + exact IH'.
Qed.

Lemma concat_filters {A} (key : A -> Z) (ps : list (A -> bool)) (l : list A) :
  StronglySorted (fun a b => key a <= key b) l ->
  (forall i j x y p q, (i < j)%nat -> nth_error ps i = Some p -> nth_error ps j = Some q ->
     In x l -> In y l -> p x = true -> q y = true -> key x < key y) ->
  List.concat (map (fun p => filter p l) ps) = filter (fun x => existsb (fun p => p x) ps) l.
Proof.
  intros Hs. induction ps as [|p ps IH]; intro Hord.
  - cbn. clear Hs Hord. induction l as [|a l IHl]; [reflexivity|exact IHl].
  - cbn [map List.concat]. rewrite IH.
    + rewrite (filter_app_sorted key); [|exact Hs|].
      * apply filter_ext. intro x. reflexivity.
      * intros x y Hx Hy Px Qy. apply existsb_exists in Qy as [q [Hq Qy]].
        apply In_nth_error in Hq as [j Hj].
        exact (Hord 0%nat (S j) x y p q ltac:(lia) eq_refl Hj Hx Hy Px Qy).
    + intros i j x y p' q Hij Hi Hj. apply (Hord (S i) (S j)); [lia|exact Hi|exact Hj].
Qed.

Section Archived.
Context `{SortSlice}.

Lemma plan_in (l : list MonitorData) (s : Time) :
  In s (plan (sortData l)) ->
  exists k, (k < Z.to_nat ((alignedCeil (max_ts l) - alignedStart (min_ts l))
                           / FILE_DURATION))%nat
            /\ unix_ns s = alignedStart (min_ts l) + Z.of_nat k * FILE_DURATION.
Proof.
  intro Hs. destruct l as [|r l].
  { unfold sortData in Hs.
    pose proof (sort_Slice_perm MonitorData less_timestamp []) as Hp.
    apply Permutation_sym, Permutation_nil in Hp. unfold plan in Hs. rewrite Hp in Hs. destruct Hs. }
  apply (in_map unix_ns) in Hs. rewrite plan_starts in Hs by discriminate.
  apply in_map_iff in Hs as [k [Ek Hk]]. apply in_seq in Hk.
  exists k. split; [lia|symmetry; exact Ek].
Qed.

End Archived.

Lemma in_slot_iff (s : Time) (d : MonitorData) :
  in_slot s d = true <-> unix_ns s < ts d < unix_ns s + FILE_DURATION.
Proof.
  unfold in_slot, After, Before, Add, ts. cbn [unix_ns].
  rewrite andb_true_iff, !Z.ltb_lt. reflexivity.
Qed.

Section Archived2.
Context `{SortSlice}.

Lemma sortData_nil (l : list MonitorData) : sortData l = [] -> l = [].
Proof.
  intro E. pose proof (sortData_perm l) as Hp. rewrite E in Hp.
  apply Permutation_nil in Hp. exact Hp.
Qed.

Lemma plan_nth (l : list MonitorData) (i : nat) (s : Time) :
  l <> [] -> nth_error (plan (sortData l)) i = Some s ->
  unix_ns s = alignedStart (min_ts l) + Z.of_nat i * FILE_DURATION.
Proof.
  intros Hne Hi.
  assert (Hm : nth_error (map unix_ns (plan (sortData l))) i = Some (unix_ns s))
    by (rewrite nth_error_map, Hi; reflexivity).
  rewrite plan_starts, nth_error_map in Hm by exact Hne.
  destruct (nth_error (seq 0 _) i) as [k|] eqn:Q; [|discriminate].
  injection Hm as <-.
  assert (Hlt : (i < List.length (seq 0 (Z.to_nat ((alignedCeil (max_ts l)
                   - alignedStart (min_ts l)) / FILE_DURATION))))%nat)
    by (apply nth_error_Some; congruence).
  rewrite length_seq in Hlt.
  apply (nth_error_nth _ _ 0%nat) in Q. rewrite seq_nth in Q by exact Hlt.
  subst k. reflexivity.
Qed.

Lemma archived_concat (l : list MonitorData) (calls : list (list MonitorData * Time)) :
  compileMonitorData l = Some calls ->
  List.concat (map fst calls) = filter (fun d => negb (on_boundary d)) (sortData l).
Proof.
  unfold compileMonitorData. intro Hc.
  destruct (sortData l) as [|first rest] eqn:E; [discriminate|].
  assert (Hne : l <> []) by (intro; subst l; pose proof (sortData_perm []) as Hp;
    rewrite E in Hp; apply Permutation_sym, Permutation_nil in Hp; discriminate).
  assert (Hcalls : calls = map (fun s => (split_data (sortData l) s, s)) (plan (sortData l)))
    by (rewrite E; congruence).
  clear Hc. subst calls. rewrite <- E. rewrite map_map. cbn [fst]. unfold split_data.
  rewrite <- (map_map in_slot (fun p => filter p (sortData l))).
  pose proof FILE_DURATION_pos as HD.
  rewrite (concat_filters ts); [|apply sortData_sorted|].
  2:{ intros i j x y p q Hij Hi Hj Hx Hy Px Qy.
      rewrite nth_error_map in Hi, Hj.
      destruct (nth_error (plan (sortData l)) i) as [si|] eqn:Ei; [|discriminate].
      destruct (nth_error (plan (sortData l)) j) as [sj|] eqn:Ej; [|discriminate].
      injection Hi as <-. injection Hj as <-.
      apply plan_nth in Ei; [|exact Hne]. apply plan_nth in Ej; [|exact Hne].
      apply in_slot_iff in Px, Qy.
      assert (Z.of_nat i + 1 <= Z.of_nat j) by lia.
      change FILE_DURATION with 300000000000 in *. nia. }
  apply filter_ext_in. intros x Hx.
  assert (Hxl : In x l) by (eapply Permutation_in; [apply sortData_perm|exact Hx]).
  destruct l as [|r l0]; [congruence|].
  destruct (min_ts_spec r l0) as [_ Hmin]. destruct (max_ts_spec r l0) as [_ Hmax].
  specialize (Hmin x Hxl). specialize (Hmax x Hxl).
  destruct (alignedCeil_spec (max_ts (r :: l0))) as [Hc1 [Hc2 _]].
  unfold on_boundary, alignedStart in *.
  set (a := min_ts (r :: l0)) in *. set (M := max_ts (r :: l0)) in *.
  pose proof (Z.div_mod (ts x) FILE_DURATION ltac:(lia)) as Ex.
  pose proof (Z.mod_pos_bound (ts x) FILE_DURATION HD) as Bx.
  pose proof (Z.div_mod a FILE_DURATION ltac:(lia)) as Ea.
  pose proof (Z.mod_pos_bound a FILE_DURATION HD) as Ba.
  apply Bool.eq_iff_eq_true. rewrite existsb_exists, negb_true_iff, Z.eqb_neq. split.
  - intros [p [Hp Px]]. apply in_map_iff in Hp as [s [<- Hs]].
    apply In_nth_error in Hs as [i Hi]. apply plan_nth in Hi; [|discriminate].
    apply in_slot_iff in Px. unfold alignedStart in Hi. fold a in Hi.
    intro Hz. rewrite Hz in Ex. change FILE_DURATION with 300000000000 in *. nia.
  - intro Hnz.
    set (m := a / FILE_DURATION) in *. set (q := ts x / FILE_DURATION) in *.
    set (c := - (- M / FILE_DURATION)) in *.
    assert (Hqm : m <= q) by (change FILE_DURATION with 300000000000 in *; nia).
    assert (Hqc : q < c) by (change FILE_DURATION with 300000000000 in *; nia).
    assert (Hn : (alignedCeil M - m * FILE_DURATION) / FILE_DURATION = c - m).
    { rewrite Hc2. fold c. rewrite <- Z.mul_sub_distr_r, Z.div_mul by lia. reflexivity. }
    assert (Hin : In (m * FILE_DURATION + Z.of_nat (Z.to_nat (q - m)) * FILE_DURATION)
                     (map unix_ns (plan (sortData (r :: l0))))).
    { rewrite plan_starts by discriminate. unfold alignedStart. fold a M m. rewrite Hn.
      apply (in_map (fun k : nat => m * FILE_DURATION + Z.of_nat k * FILE_DURATION)).
      apply in_seq. lia. }
    apply in_map_iff in Hin as [s [Es Hs]].
    exists (in_slot s). split; [apply in_map, Hs|].
    apply in_slot_iff. rewrite Es. rewrite Z2Nat.id by lia.
    change FILE_DURATION with 300000000000 in *. nia.
Qed.

End Archived2.

Lemma perm_filter {A} (f : A -> bool) (l l' : list A) :
  Permutation l l' -> Permutation (filter f l) (filter f l').
Proof.
  induction 1 as [|x l l' _ IH|x y l|l l' l'' _ IH1 _ IH2]; cbn [filter].
  - constructor.
  - destruct (f x); [apply perm_skip|]; exact IH.
  - destruct (f x), (f y); try constructor; reflexivity.
  - etransitivity; eassumption.
Qed.

Lemma group_lookup (all : list MonitorData) (k : string) (ds : list MonitorData) :
  In (k, ds) (group_by_monitor all) ->
  ds = filter (fun d => String.eqb (MonitorId d) k) all /\ ds <> [].
Proof.
  intro Hin. unfold group_by_monitor in *.
  destruct (keys_fold all [] k) as [Hk Hnd].
  assert (N : NoDup (map fst (fold_left (fun m data => add_to_group data m) all [])))
    by (apply Hnd; constructor).
  pose proof (in_lookup _ k ds N Hin) as E. rewrite lookup_fold in E. cbn [lookup_group app] in E.
  split; [exact E|].
  apply (in_map fst) in Hin. cbn [fst] in Hin. apply Hk in Hin as [[]|[d [Hd Ed]]].
  rewrite E. intro F.
  assert (Hf : In d (filter (fun d => String.eqb (MonitorId d) k) all))
    by (apply filter_In; split; [exact Hd|apply String.eqb_eq; exact Ed]).
  rewrite F in Hf. destruct Hf.
Qed.

Lemma group_partition (all : list MonitorData) :
  NoDup (map fst (group_by_monitor all))
  /\ (forall k, In k (map fst (group_by_monitor all)) <-> exists d, In d all /\ MonitorId d = k)
  /\ Permutation (List.concat (map snd (group_by_monitor all))) all.
Proof.
  unfold group_by_monitor. split; [apply (proj2 (keys_fold all [] "")); constructor|].
  split.
  - intro k. rewrite (proj1 (keys_fold all [] k)). cbn [map In].
    split; [intros [[]|H]; exact H|intro H; right; exact H].
  - rewrite concat_fold. reflexivity.
Qed.

Lemma body_entries_compiled (b k : string) (c : CompiledMonitorData.t) :
  body_entries (mkPutObjectInput b k (marshal_CompiledMonitorData c))
  = map marshal_Entry (CompiledMonitorData.Entries c).
Proof. destruct c; reflexivity. Qed.

Lemma store_bodies (put : PutObjectInput -> option error) (c : list MonitorData * Time) :
  flat_map (fun u => body_entries (fst u)) (store put c) = map entry_json (fst c).
Proof.
  destruct c as [[|first rest] s]; [reflexivity|].
  unfold store. cbn [compileAndStoreinS3].
  destruct (put _); cbn [flat_map fst]; rewrite app_nil_r, body_entries_compiled;
    cbn [CompiledMonitorData.Entries]; rewrite map_map; reflexivity.
Qed.

Lemma store_length (put : PutObjectInput -> option error) (c : list MonitorData * Time) :
  (List.length (store put c) <= List.length (fst c))%nat.
Proof.
  destruct c as [[|first rest] s]; [reflexivity|].
  unfold store. cbn [compileAndStoreinS3].
  destruct (put _); cbn [List.length fst]; lia.
Qed.

Lemma calls_bodies (put : PutObjectInput -> option error) (calls : list (list MonitorData * Time)) :
  flat_map (fun u => body_entries (fst u)) (flat_map (store put) calls)
  = map entry_json (List.concat (map fst calls)).
Proof.
  induction calls as [|c calls IH]; [reflexivity|].
  cbn [flat_map map List.concat]. rewrite flat_map_app, store_bodies, IH, map_app. reflexivity.
Qed.

Lemma calls_length (put : PutObjectInput -> option error) (calls : list (list MonitorData * Time)) :
  (List.length (flat_map (store put) calls) <= List.length (List.concat (map fst calls)))%nat.
Proof.
  induction calls as [|c calls IH]; [reflexivity|].
  cbn [flat_map map List.concat]. rewrite !length_app.
  pose proof (store_length put c). lia.
Qed.

Lemma upload_line (put : PutObjectInput -> option error) (c : list MonitorData * Time)
    (u : PutObjectInput * LogLine) :
  In u (store put c) ->
  exists first rest, fst c = first :: rest
    /\ compileAndStoreinS3 (first :: rest) (snd c) = Some (fst u)
    /\ snd u = match put (fst u) with
               | Some e => LogUploadError e
               | None => LogArchived (OrgId first) (MonitorId first) (snd c)
               end.
Proof.
  destruct c as [[|first rest] s]; [intros []|].
  unfold store. intro Hu. exists first, rest. split; [reflexivity|].
  cbn [compileAndStoreinS3] in Hu |- *.
  destruct (put _) eqn:Ep; destruct Hu as [<-|[]]; cbn [fst snd]; rewrite Ep;
    split; reflexivity.
Qed.

Section Handler2.
Context `{SortSlice}.

Lemma compile_None (l : list MonitorData) : compileMonitorData l = None <-> l = [].
Proof.
  unfold compileMonitorData. destruct (sortData l) eqn:E.
  - split; [intros _; apply sortData_nil, E|reflexivity].
  - split; [discriminate|intros ->].
    pose proof (sortData_perm []) as Hp. rewrite E in Hp.
    apply Permutation_sym, Permutation_nil in Hp. discriminate.
Qed.

Lemma compile_Some (l : list MonitorData) (calls : list (list MonitorData * Time)) :
  compileMonitorData l = Some calls ->
  calls = map (fun s => (split_data (sortData l) s, s)) (plan (sortData l)).
Proof.
  unfold compileMonitorData. destruct (sortData l); [discriminate|congruence].
Qed.

Lemma group_bodies (put : PutObjectInput -> option error) (ds : list MonitorData) :
  Permutation
    (flat_map (fun u => body_entries (fst u))
       (match compileMonitorData ds with
        | Some calls => flat_map (store put) calls
        | None => []
        end))
    (map entry_json (filter (fun d => negb (on_boundary d)) ds)).
Proof.
  destruct (compileMonitorData ds) as [calls|] eqn:E.
  - rewrite calls_bodies, (archived_concat ds calls E).
    apply Permutation_map, perm_filter, sortData_perm.
  - apply compile_None in E. subst ds. reflexivity.
Qed.

Lemma group_length (put : PutObjectInput -> option error) (ds : list MonitorData) :
  (List.length (match compileMonitorData ds with
                | Some calls => flat_map (store put) calls
                | None => []
                end) <= List.length ds)%nat.
Proof.
  destruct (compileMonitorData ds) as [calls|] eqn:E; [|cbn; lia].
  etransitivity; [apply calls_length|].
  rewrite (archived_concat ds calls E).
  rewrite <- (Permutation_length (sortData_perm ds)). apply filter_length_le.
Qed.

End Handler2.

Section HandlerRuns.
Context `{SortSlice}.

Lemma handler_groups (event : Event) (all : list MonitorData) (err : option error)
    (put : PutObjectInput -> option error) :
  uploads (HandleRequest event (all, err) put)
  = flat_map (fun '(_, dataArray) =>
                match compileMonitorData dataArray with
                | Some calls => flat_map (store put) calls
                | None => []
                end) (group_by_monitor all).
Proof. reflexivity. Qed.

Lemma handler_length (event : Event) (all : list MonitorData) (err : option error)
    (put : PutObjectInput -> option error) :
  (List.length (uploads (HandleRequest event (all, err) put)) <= List.length all)%nat.
Proof.
  rewrite handler_groups.
  destruct (group_partition all) as [_ [_ Hp]].
  rewrite <- (Permutation_length Hp). clear Hp.
  induction (group_by_monitor all) as [|[k ds] g IH]; [reflexivity|].
  cbn [flat_map map snd List.concat]. rewrite !length_app.
  pose proof (group_length put ds). lia.
Qed.

End HandlerRuns.

Section FetchRuns.
Context {Item : Type}.
Variable build : Condition -> option error.
Variable scan : ScanInput -> list Item * option error.
Variable unmarshalMap : Item -> MonitorData * option error.

Lemma unmarshal_items_spec (items : list Item) :
  forall result,
    (snd (unmarshal_items unmarshalMap items result) <> None ->
     fst (unmarshal_items unmarshalMap items result) = [])
    /\ (snd (unmarshal_items unmarshalMap items result) = None
        <-> Forall (fun item => snd (unmarshalMap item) = None) items)
    /\ (snd (unmarshal_items unmarshalMap items result) = None ->
        fst (unmarshal_items unmarshalMap items result)
        = (result ++ map (fun item => fst (unmarshalMap item)) items)%list).
Proof.
  induction items as [|item items IH]; intro result; cbn [unmarshal_items].
  - cbn [fst snd map]. rewrite app_nil_r.
    split; [congruence|split; [split; constructor|reflexivity]].
  - destruct (unmarshalMap item) as [md [e|]] eqn:Eu.
    + cbn [fst snd]. split; [reflexivity|split; [|discriminate]].
      split; [discriminate|]. intro F. inversion F as [|? ? Hi _]. rewrite Eu in Hi. discriminate.
    + destruct (IH (result ++ [md])%list) as [H1 [H2 H3]].
      split; [exact H1|split].
      * rewrite H2. split; [intro F; constructor; [rewrite Eu; reflexivity|exact F]|].
        intro F. inversion F. assumption.
      * intro Hn. rewrite (H3 Hn), <- app_assoc. cbn [map]. rewrite Eu. reflexivity.
Qed.

Lemma fetch_spec (now : Time) :
  (snd (fetchAllMonitorData build scan unmarshalMap now) <> None ->
   fst (fetchAllMonitorData build scan unmarshalMap now) = [])
  /\ (snd (fetchAllMonitorData build scan unmarshalMap now) = None
      <-> build (filterExpr now) = None
          /\ snd (scan (scanInput (filterExpr now))) = None
          /\ Forall (fun item => snd (unmarshalMap item) = None)
                    (fst (scan (scanInput (filterExpr now)))))
  /\ (snd (fetchAllMonitorData build scan unmarshalMap now) = None ->
      fst (fetchAllMonitorData build scan unmarshalMap now)
      = map (fun item => fst (unmarshalMap item)) (fst (scan (scanInput (filterExpr now))))).
Proof.
  unfold fetchAllMonitorData.
  destruct (build (filterExpr now)) as [e|].
  - cbn [fst snd]. split; [reflexivity|split; [|discriminate]].
    split; [discriminate|intros [F _]; discriminate].
  - destruct (scan (scanInput (filterExpr now))) as [items [e|]]; cbn [fst snd].
    + split; [reflexivity|split; [|discriminate]].
      split; [discriminate|intros [_ [F _]]; discriminate].
    + destruct (unmarshal_items_spec items []) as [H1 [H2 H3]].
      split; [exact H1|split].
      * rewrite H2. split; [intro F; split; [reflexivity|split; [reflexivity|exact F]]|].
        intros [_ [_ F]]. exact F.
      * exact H3.
Qed.

Lemma fetch_length (now : Time) :
  (List.length (fst (fetchAllMonitorData build scan unmarshalMap now))
   <= List.length (fst (scan (scanInput (filterExpr now)))))%nat.
Proof.
  destruct (fetch_spec now) as [H1 [_ H3]].
  destruct (snd (fetchAllMonitorData build scan unmarshalMap now)) eqn:E.
  - rewrite H1 by discriminate. cbn. lia.
  - rewrite H3 by reflexivity. rewrite length_map. lia.
Qed.

End FetchRuns.

(** *** RFC 3339 round trip of [Format] and [Parse] *)

Lemma digit_mod (n : Z) :
  digit (ascii_of_nat (Z.to_nat (48 + n mod 10))) = Some (n mod 10).
Proof.
  pose proof (Z.mod_pos_bound n 10 ltac:(lia)).
  unfold digit. rewrite nat_ascii_embedding by lia. rewrite Z2Nat.id by lia.
  replace (48 <=? 48 + n mod 10) with true by (symmetry; apply Z.leb_le; lia).
  replace (48 + n mod 10 <=? 57) with true by (symmetry; apply Z.leb_le; lia).
  cbn [andb]. f_equal. lia.
Qed.

Lemma digits_acc_app (l1 l2 : list ascii) : forall acc,
  digits_acc acc (l1 ++ l2)
  = match digits_acc acc l1 with Some v => digits_acc v l2 | None => None end.
Proof.
  induction l1 as [|c l1 IH]; intro acc; [reflexivity|].
  cbn [app digits_acc]. destruct (digit c); [apply IH|reflexivity].
Qed.

Lemma digits_acc_dec (k : nat) : forall acc n,
  digits_acc acc (dec k n) = Some (acc * 10 ^ Z.of_nat k + n mod 10 ^ Z.of_nat k).
Proof.
  induction k as [|k IH]; intros acc n.
  - cbn [dec digits_acc]. rewrite Z.mod_1_r. f_equal. lia.
  - cbn [dec]. rewrite digits_acc_app, IH. cbn [digits_acc]. rewrite digit_mod.
    rewrite Nat2Z.inj_succ, Z.pow_succ_r by lia.
    rewrite (mod_mul_split n 10 (10 ^ Z.of_nat k)) by (try lia; apply Z.pow_pos_nonneg; lia).
    f_equal. ring.
Qed.

Lemma dec_facts (k : nat) (n : Z) : 0 <= n < 10 ^ Z.of_nat k ->
  List.length (dec k n) = k /\ digits_acc 0 (dec k n) = Some n.
Proof.
  intro H. split; [apply length_dec|]. rewrite digits_acc_dec, Z.mod_small by lia.
  reflexivity.
Qed.

Ltac divfacts x d :=
  pose proof (Z.div_mod x d ltac:(lia)); pose proof (Z.mod_pos_bound x d ltac:(lia)).

Lemma civil_in_era_days (doe ya m d : Z) : 0 <= doe < 146097 ->
  civil_in_era doe = (ya, m, d) ->
  0 <= ya <= 400 /\ d <= (if m =? 2 then (if (ya mod 4 =? 0) && (negb (ya mod 100 =? 0) || (ya mod 400 =? 0)) then 29 else 28)
             else if (m =? 4) || (m =? 6) || (m =? 9) || (m =? 11) then 30 else 31).
Proof.
  intros H E. unfold civil_in_era in E. cbv zeta in E.
  set (y := (doe - doe / 1460 + doe / 36524 - doe / 146096) / 365) in *.
  set (doy := doe - (365 * y + y / 4 - y / 100)) in *.
  assert (B : 0 <= y <= 399 /\ 0 <= doy /\
    (doy <= 364 \/ (doy = 365 /\ (y + 1) mod 4 = 0 /\ ((y + 1) mod 100 <> 0 \/ (y + 1) mod 400 = 0)))).
  { subst doy y.
    divfacts doe 1460. divfacts doe 36524. divfacts doe 146096.
    set (q1 := doe / 1460) in *. set (q2 := doe / 36524) in *. set (q3 := doe / 146096) in *.
    set (r1 := doe mod 1460) in *. set (r2 := doe mod 36524) in *. set (r3 := doe mod 146096) in *.
    set (g := doe - q1 + q2 - q3) in *.
    divfacts g 365. set (y := g / 365) in *. set (rg := g mod 365) in *.
    divfacts y 4. divfacts y 100. divfacts (y+1) 4. divfacts (y+1) 100. divfacts (y+1) 400.
    lia. }
  clearbody y doy.
  set (mp := (5 * doy + 2) / 153) in *.
  divfacts (5 * doy + 2) 153. fold mp in H0, H1.
  divfacts (153 * mp + 2) 5.
  set (c := (153 * mp + 2) / 5) in *.
  destruct (Z.ltb_spec mp 10) as [Hmp|Hmp];
    injection E as Eya Em Ed; subst ya m d;
    repeat match goal with
           | |- context [?a <=? ?b] => destruct (Z.leb_spec a b)
           | |- context [?a =? ?b] => destruct (Z.eqb_spec a b)
           end; cbn [andb orb negb]; lia.
Qed.

Lemma isLeap_era (e y : Z) : isLeap (e * 400 + y) = isLeap y.
Proof.
  unfold isLeap.
  replace (e * 400 + y) with (y + (e * 100) * 4) by ring.
  rewrite Z_mod_plus_full.
  replace (y + e * 100 * 4) with (y + (e * 4) * 100) by ring.
  rewrite Z_mod_plus_full.
  replace (y + e * 4 * 100) with (y + e * 400) by ring.
  rewrite Z_mod_plus_full. reflexivity.
Qed.

Lemma civil_from_days_daysIn (z y m d : Z) :
  civil_from_days z = (y, m, d) -> d <= daysIn m y.
Proof.
  unfold civil_from_days. cbv zeta.
  pose proof (Z.mod_pos_bound (z + 719468) 146097 ltac:(lia)) as Hb.
  destruct (civil_in_era ((z + 719468) mod 146097)) as [[ya m'] d'] eqn:E.
  intro H. injection H as <- <- <-.
  apply civil_in_era_days in E as [_ Hd]; [|exact Hb].
  unfold daysIn. rewrite isLeap_era. unfold isLeap. exact Hd.
Qed.

Ltac gen_dec k n :=
  let L := fresh "L" in let D := fresh "D" in
  pose proof (dec_facts k n ltac:(cbn; lia)) as [L D]; revert L D;
  generalize (dec k n); intros ? L D.

Lemma parse_format (t : Time) :
  unix_ns t mod Second = 0 -> zone_off t mod 60 = 0 -> -86400 < zone_off t < 86400 ->
  -719528 * 86400 <= unix_ns t / Second + zone_off t < 2932897 * 86400 ->
  Parse (Format t) = (t, None).
Proof.
  intros Hs Hz Hzb Hr.
  unfold Format. cbv zeta.
  set (local := unix_ns t / Second + zone_off t) in *.
  destruct (civil_from_days (local / 86400)) as [[y m] d] eqn:Ec.
  pose proof (civil_from_days_daysIn _ _ _ _ Ec) as Hdm.
  apply civil_from_days_spec in Ec as (Edays & Hm & Hd & Hy).
  specialize (Hy ltac:(divfacts local 86400; lia)).
  divfacts local 86400. set (sod := local mod 86400) in *.
  divfacts sod 3600. divfacts (sod mod 3600) 60. divfacts sod 60.
  rewrite (appendInt_dec y 4) by (cbn; lia).
  rewrite (appendInt_dec m 2) by (cbn; lia).
  rewrite (appendInt_dec d 2) by (cbn; lia).
  rewrite (appendInt_dec (sod / 3600) 2) by (cbn; lia).
  rewrite (appendInt_dec (sod mod 3600 / 60) 2) by (cbn; lia).
  rewrite (appendInt_dec (sod mod 60) 2) by (cbn; lia).
  gen_dec 4%nat y. gen_dec 2%nat m. gen_dec 2%nat d. gen_dec 2%nat (sod / 3600).
  gen_dec 2%nat (sod mod 3600 / 60). gen_dec 2%nat (sod mod 60).
  repeat match goal with
         | L : List.length ?l = _ |- _ =>
             destruct l as [|? [|? [|? [|? [|? ?]]]]]; cbn in L; try discriminate L; clear L
         end.
  unfold Parse, parseRFC3339. rewrite list_ascii_of_string_of_list_ascii.
  destruct (Z.eqb_spec (zone_off t) 0) as [Z0|Z0].
  - cbn -[digits_acc daysIn days_from_civil].
    repeat match goal with D : digits_acc 0 _ = Some _ |- _ => rewrite D; clear D end.
    repeat match goal with
           | |- context [?a <=? ?b] => replace (a <=? b) with true by (symmetry; apply Z.leb_le; lia)
           end.
    cbn -[daysIn days_from_civil].
    replace (d <=? daysIn m y) with true by (symmetry; apply Z.leb_le; lia).
    cbn -[days_from_civil]. rewrite Edays.
    destruct t as [ns off]. cbn [unix_ns zone_off] in *. subst off.
    pose proof (Z.div_mod ns Second ltac:(unfold Second; lia)).
    f_equal. f_equal. subst local. unfold Second in *. lia.
  - assert (Zf : (zone_off t =? 0) = false) by (apply Z.eqb_neq; exact Z0).
    try rewrite Zf.
    divfacts (zone_off t) 60. divfacts (Z.abs (zone_off t)) 60.
    set (zm := Z.abs (zone_off t) / 60) in *.
    divfacts zm 60.
    rewrite (appendInt_dec (zm / 60) 2) by (cbn; lia).
    rewrite (appendInt_dec (zm mod 60) 2) by (cbn; lia).
    gen_dec 2%nat (zm / 60). gen_dec 2%nat (zm mod 60).
    repeat match goal with
           | L : List.length ?l = _ |- _ =>
               destruct l as [|? [|? [|? ?]]]; cbn in L; try discriminate L; clear L
           end.
    destruct (Z.ltb_spec (zone_off t) 0) as [Zs|Zs];
    cbn -[digits_acc daysIn days_from_civil];
    repeat match goal with D : digits_acc 0 _ = Some _ |- _ => rewrite D; clear D end;
    repeat match goal with
           | |- context [?a <=? ?b] => replace (a <=? b) with true by (symmetry; apply Z.leb_le; lia)
           end;
    cbn -[daysIn days_from_civil];
    (replace (d <=? daysIn m y) with true by (symmetry; apply Z.leb_le; lia));
    cbn -[days_from_civil]; rewrite Edays;
    destruct t as [ns off]; cbn [unix_ns zone_off] in *;
    pose proof (Z.div_mod ns Second ltac:(unfold Second; lia));
    f_equal; f_equal; subst local; unfold Second in *; lia.
Qed.

Lemma field_range (cs : list ascii) (i n : nat) (lo hi v : Z) :
  field cs i n lo hi = Some v -> lo <= v <= hi.
Proof.
  unfold field. destruct (Nat.eqb _ _); [|discriminate].
  destruct (digits_acc 0 _) as [z|]; [|discriminate].
  destruct ((lo <=? z) && (z <=? hi)) eqn:B; [|discriminate].
  intro E. injection E as <-. apply andb_true_iff in B as [B1 B2].
  apply Z.leb_le in B1, B2. lia.
Qed.

Lemma parse_zone_range (cs : list ascii) (off : Z) :
  parse_zone cs = Some off -> off mod 60 = 0 /\ -86400 < off < 86400.
Proof.
  unfold parse_zone. intro E.
  repeat (match type of E with
          | context [match ?x with _ => _ end] =>
              first [is_var x; destruct x | let H := fresh "F" in destruct x eqn:H]
          end; cbn -[field] in E; try discriminate E).
  all: injection E as <-.
  all: repeat match goal with F : field _ _ _ _ _ = Some _ |- _ => apply field_range in F end.
  all: Z.div_mod_to_equations; lia.
Qed.

Ltac destruct_matches E :=
  repeat match type of E with
         | context [match ?x with _ => _ end] =>
             first [is_var x; destruct x | let H := fresh "H" in destruct x eqn:H];
             try discriminate E
         end.

Lemma colonTZ_mod (v r : list ascii) (off : Z) :
  colonTZ v = Some (off, r) -> off mod 60 = 0.
Proof.
  unfold colonTZ, obind. intro E. destruct_matches E; cbn in E; destruct_matches E.
  all: injection E as <- _; Z.div_mod_to_equations; lia.
Qed.

Lemma Parse_zone_mod (s : string) : zone_off (fst (Parse s)) mod 60 = 0.
Proof.
  unfold Parse. destruct (parseRFC3339 s) as [t|] eqn:E.
  - cbn [fst]. unfold parseRFC3339 in E.
    repeat match type of E with
           | context [match ?x with _ => _ end] =>
               let H := fresh "H" in destruct x eqn:H; try discriminate E
           end.
    injection E as <-. cbn [zone_off].
    eapply parse_zone_range. eassumption.
  - destruct (parseLayoutRFC3339 s) as [t|] eqn:G; [|reflexivity].
    cbn [fst]. unfold parseLayoutRFC3339, obind in G.
    repeat match type of G with
           | context [match ?x with _ => _ end] =>
               let H := fresh "H" in destruct x eqn:H; try discriminate G
           end.
    injection G as <-. cbn [zone_off].
    eapply colonTZ_mod. eassumption.
Qed.

(** *** Properties *)

Section Grouping.
Context `{SortSlice}.

(** The grouping loop of [HandleRequest]: every group [(k, ds)] of
    [monitorDataMap] holds exactly the fetched records whose [MonitorId] is
    [k], in fetch order, and is never empty. *)
Theorem group_by_monitor_groups (all : list MonitorData) (k : string) (ds : list MonitorData) :
  In (k, ds) (group_by_monitor all) ->
  ds = filter (fun d => String.eqb (MonitorId d) k) all /\ ds <> [].
Proof. apply group_lookup. Qed.

(** The grouping loop of [HandleRequest] partitions the fetched records: the
    keys are pairwise distinct, they are exactly the [MonitorId]s that occur,
    and the groups together hold every record exactly once. *)
Theorem group_by_monitor_partition (all : list MonitorData) :
  NoDup (map fst (group_by_monitor all))
  /\ (forall k, In k (map fst (group_by_monitor all)) <-> exists d, In d all /\ MonitorId d = k)
  /\ Permutation (List.concat (map snd (group_by_monitor all))) all.
Proof. apply group_partition. Qed.

(** [compileMonitorData] panics ([dataArray[0]] out of range) exactly on an
    empty slice, and [HandleRequest] never hands it one: every group it
    spawns a goroutine for compiles without the panic. *)
Theorem compileMonitorData_no_panic_on_groups (all : list MonitorData) :
  (forall l, compileMonitorData l = None <-> l = [])
  /\ (forall k ds, In (k, ds) (group_by_monitor all) -> compileMonitorData ds <> None).
Proof.
  split; [apply compile_None|].
  intros k ds Hg E. apply compile_None in E.
  exact (proj2 (group_lookup all k ds Hg) E).
Qed.

(** The slot loop of [compileMonitorData] hands its [compileAndStoreinS3]
    calls, taken in spawn order and concatenated, exactly the sorted records
    whose timestamp is not a multiple of 5 minutes since the Unix epoch: each
    other record reaches exactly one call, and the records on a boundary reach
    none. *)
Theorem compileMonitorData_archives_off_boundary (l : list MonitorData)
    (calls : list (list MonitorData * Time)) :
  compileMonitorData l = Some calls ->
  List.concat (map fst calls) = filter (fun d => negb (on_boundary d)) (sortData l).
Proof. apply archived_concat. Qed.

(** Whatever S3 answers, the entries of the documents [HandleRequest] sends
    to [PutObject] are, up to order, exactly the fetched records whose
    timestamp is not on a 5-minute boundary, each once, as
    [{"timestamp": ..., "monitorId": values}]. *)
Theorem handler_uploads_entries (event : Event) (all : list MonitorData)
    (err : option error) (put : PutObjectInput -> option error) :
  Permutation
    (flat_map (fun u => body_entries (fst u)) (uploads (HandleRequest event (all, err) put)))
    (map entry_json (filter (fun d => negb (on_boundary d)) all)).
Proof.
  rewrite handler_groups.
  destruct (group_partition all) as [_ [_ Hp]].
  transitivity (map entry_json (filter (fun d => negb (on_boundary d))
                                  (List.concat (map snd (group_by_monitor all))))).
  2:{ apply Permutation_map, perm_filter, Hp. }
  clear Hp. induction (group_by_monitor all) as [|[k ds] g IH]; [reflexivity|].
  cbn [flat_map map snd List.concat]. rewrite flat_map_app, filter_app, map_app.
  apply Permutation_app; [apply group_bodies|exact IH].
Qed.

(** [HandleRequest] makes at most as many [PutObject] calls as it fetched
    records. *)
Theorem handler_upload_count (event : Event) (all : list MonitorData)
    (err : option error) (put : PutObjectInput -> option error) :
  (List.length (uploads (HandleRequest event (all, err) put)) <= List.length all)%nat.
Proof. apply handler_length. Qed.

(** Every [PutObject] request of [HandleRequest] is the one
    [compileAndStoreinS3] builds for a non-empty slot whose start is a
    multiple of 5 minutes since the Unix epoch; all its records were fetched,
    share the first record's [MonitorId] and lie strictly inside the slot;
    and the line logged for it is the upload error S3 returned, or else the
    "Archived Data" line with the first record's ids and the slot start. *)
Theorem handler_upload_origin (event : Event) (all : list MonitorData)
    (err : option error) (put : PutObjectInput -> option error)
    (u : PutObjectInput * LogLine) :
  In u (uploads (HandleRequest event (all, err) put)) ->
  exists first rest s,
    compileAndStoreinS3 (first :: rest) s = Some (fst u)
    /\ snd u = match put (fst u) with
               | Some e => LogUploadError e
               | None => LogArchived (OrgId first) (MonitorId first) s
               end
    /\ unix_ns s mod FILE_DURATION = 0
    /\ forall d, In d (first :: rest) ->
         In d all /\ MonitorId d = MonitorId first
         /\ unix_ns s < ts d < unix_ns s + FILE_DURATION.
Proof.
  rewrite handler_groups. intro Hu.
  apply in_flat_map in Hu as [[k ds] [Hg Hu]].
  destruct (group_lookup all k ds Hg) as [Eds Hne].
  destruct (compileMonitorData ds) as [calls|] eqn:Ec; [|destruct Hu].
  apply in_flat_map in Hu as [c [Hc Hu]].
  apply compile_Some in Ec. subst calls.
  apply in_map_iff in Hc as [s [<- Hs]].
  destruct (upload_line put _ u Hu) as [first [rest [Ef [Hput Hlog]]]].
  cbn [fst snd] in Ef, Hput, Hlog.
  assert (Hin : forall d, In d (first :: rest) ->
            In d all /\ MonitorId d = k /\ unix_ns s < ts d < unix_ns s + FILE_DURATION).
  { intros d Hd. rewrite <- Ef in Hd. unfold split_data in Hd.
    apply filter_In in Hd as [Hd Hslot]. apply in_slot_iff in Hslot.
    apply (Permutation_in _ (sortData_perm ds)) in Hd.
    rewrite Eds in Hd. apply filter_In in Hd as [Hd Hk].
    apply String.eqb_eq in Hk. split; [exact Hd|split; [exact Hk|exact Hslot]]. }
  exists first, rest, s. split; [exact Hput|split; [exact Hlog|split]].
  - destruct (plan_in ds s Hs) as [i [_ ->]]. unfold alignedStart.
    rewrite <- Z.mul_add_distr_r. apply Z.mod_mul. discriminate.
  - intros d Hd. destruct (Hin d Hd) as [Ha [Hk Hb]].
    destruct (Hin first (or_introl eq_refl)) as [_ [Hk' _]].
    split; [exact Ha|split; [congruence|exact Hb]].
Qed.

End Grouping.

Section Fetching.
Context {Item : Type}.
Variable build : Condition -> option error.
Variable scan : ScanInput -> list Item * option error.
Variable unmarshalMap : Item -> MonitorData * option error.

(** [fetchAllMonitorData] is all or nothing: with an error it returns no
    records; it returns no error exactly when the expression builds, the scan
    succeeds and every scanned item unmarshals; and then it returns the
    unmarshalled items in scan order. *)
Theorem fetchAllMonitorData_all_or_nothing (now : Time) :
  (snd (fetchAllMonitorData build scan unmarshalMap now) <> None ->
   fst (fetchAllMonitorData build scan unmarshalMap now) = [])
  /\ (snd (fetchAllMonitorData build scan unmarshalMap now) = None
      <-> build (filterExpr now) = None
          /\ snd (scan (scanInput (filterExpr now))) = None
          /\ Forall (fun item => snd (unmarshalMap item) = None)
                    (fst (scan (scanInput (filterExpr now)))))
  /\ (snd (fetchAllMonitorData build scan unmarshalMap now) = None ->
      fst (fetchAllMonitorData build scan unmarshalMap now)
      = map (fun item => fst (unmarshalMap item)) (fst (scan (scanInput (filterExpr now))))).
Proof. apply fetch_spec. Qed.

End Fetching.

(** With a scan that returns at most [Limit] items, [fetchAllMonitorData]
    (one [Scan] with [Limit: 1000], no pagination) returns at most 1000
    records, and an invocation of [HandleRequest] on its result makes at most
    1000 [PutObject] calls. *)
Theorem fetchAllMonitorData_limit `{SortSlice} {Item : Type}
    (build : Condition -> option error)
    (scan : ScanInput -> list Item * option error)
    (unmarshalMap : Item -> MonitorData * option error) (now : Time) :
  (forall input, (List.length (fst (scan input)) <= Z.to_nat (Limit input))%nat) ->
  (List.length (fst (fetchAllMonitorData build scan unmarshalMap now)) <= 1000)%nat
  /\ forall event put,
       (List.length (uploads (HandleRequest event
                               (fetchAllMonitorData build scan unmarshalMap now) put))
        <= 1000)%nat.
Proof.
  intro Hscan.
  assert (Hf : (List.length (fst (fetchAllMonitorData build scan unmarshalMap now))
                <= 1000)%nat).
  { etransitivity; [apply fetch_length|]. apply Hscan. }
  split; [exact Hf|]. intros event put.
  destruct (fetchAllMonitorData build scan unmarshalMap now) as [all err].
  etransitivity; [apply handler_length|exact Hf].
Qed.

(** [roundedUpEndTime] is the ceiling of the time elapsed since Go's zero
    time to a multiple of [d]: it keeps the zone offset and lies in
    [[t, t + d)]. *)
Theorem roundUp_ceil (t : Time) (d : Duration) (Hd : 0 < d) :
  unix_ns (roundUp t d) - unix_ns zeroTime = - (- (unix_ns t - unix_ns zeroTime) / d) * d
  /\ zone_off (roundUp t d) = zone_off t
  /\ unix_ns t <= unix_ns (roundUp t d) < unix_ns t + d.
Proof.
  rewrite roundUp_spec by exact Hd. cbn [unix_ns zone_off].
  pose proof (ceil_by_mod (unix_ns t - unix_ns zeroTime) d Hd) as Ec.
  pose proof (Z.mod_pos_bound (unix_ns t - unix_ns zeroTime) d Hd).
  destruct (Z.eqb_spec ((unix_ns t - unix_ns zeroTime) mod d) 0) as [E|E];
    split; try split; lia.
Qed.

(** Every [slotStartTime] that [compileMonitorData] passes to
    [compileAndStoreinS3] is written, in the [StartTime] field and in the
    object key, as [slotStartTime.Format(time.RFC3339)], and [time.Parse]
    reads that string back as the same instant with the same zone offset,
    provided the offset is less than 24 hours in absolute value and the
    slot's local date lies in the years 0000 to 9999.  (The slot start
    carries the offset of the monitor's earliest record, and [time.Parse]
    accepts offsets up to [+24:60]: such a start is printed with hour 24 or
    25 and does not parse back.) *)
Theorem compileMonitorData_start_time_roundtrip `{SortSlice} (l : list MonitorData)
    (calls : list (list MonitorData * Time)) (chunk : list MonitorData) (s : Time) :
  compileMonitorData l = Some calls -> In (chunk, s) calls ->
  -86400 < zone_off s < 86400 ->
  -719528 * 86400 <= unix_ns s / Second + zone_off s < 2932897 * 86400 ->
  Parse (Format s) = (s, None).
Proof.
  unfold compileMonitorData.
  destruct (sortData l) as [|first rest]; [discriminate|].
  intros Hc Hin Hzb Hr. injection Hc as <-.
  apply in_map_iff in Hin as [s' [Eq Hs]]. injection Eq as _ <-.
  destruct (plan_slot_form first rest s' Hs) as [Hz Hm].
  pose proof (Parse_zone_mod (Timestamp first)) as Z1.
  unfold parsed in Hz. apply parse_format.
  - apply Z.mod_divide in Hm as [q Hq]; [|discriminate].
    rewrite Hq. unfold FILE_DURATION, Minute.
    rewrite Z.mul_assoc, Z.mul_assoc. apply Z.mod_mul. discriminate.
  - rewrite Hz. exact Z1.
  - exact Hzb.
  - exact Hr.
Qed.

(** *** Witnesses *)

Lemma group_by_monitor_groups_witness :
  In ("m1", [rec "m1" "2024-03-01T10:07:10Z" "1"; rec "m1" "2024-03-01T10:02:00Z" "3"])
     (group_by_monitor scenarioG)
  /\ [rec "m1" "2024-03-01T10:07:10Z" "1"; rec "m1" "2024-03-01T10:02:00Z" "3"]
     = filter (fun d => String.eqb (MonitorId d) "m1") scenarioG
  /\ [rec "m1" "2024-03-01T10:07:10Z" "1"; rec "m1" "2024-03-01T10:02:00Z" "3"] <> [].
Proof.
  assert (Hin : In ("m1", [rec "m1" "2024-03-01T10:07:10Z" "1";
                           rec "m1" "2024-03-01T10:02:00Z" "3"])
                   (group_by_monitor scenarioG))
    by (vm_compute; left; reflexivity).
  split; [exact Hin|].
  exact (group_by_monitor_groups scenarioG "m1" _ Hin).
Defined.

Lemma compileMonitorData_archives_off_boundary_witness :
  exists calls, compileMonitorData scenarioA = Some calls
  /\ List.concat (map fst calls)
     = filter (fun d => negb (on_boundary d)) (sortData scenarioA).
Proof.
  destruct (compileMonitorData scenarioA) as [calls|] eqn:E;
    [|vm_compute in E; discriminate].
  exists calls. split; [reflexivity|].
  exact (compileMonitorData_archives_off_boundary scenarioA calls E).
Defined.

Lemma handler_upload_origin_witness :
  exists u, In u (uploads (HandleRequest (mkEvent "archive") (scenarioA, None) (fun _ => None)))
  /\ exists first rest s,
    compileAndStoreinS3 (first :: rest) s = Some (fst u)
    /\ snd u = LogArchived (OrgId first) (MonitorId first) s
    /\ unix_ns s mod FILE_DURATION = 0
    /\ forall d, In d (first :: rest) ->
         In d scenarioA /\ MonitorId d = MonitorId first
         /\ unix_ns s < ts d < unix_ns s + FILE_DURATION.
Proof.
  destruct (uploads (HandleRequest (mkEvent "archive") (scenarioA, None) (fun _ => None)))
    as [|u us] eqn:E; [vm_compute in E; discriminate|].
  exists u.
  assert (Hu : In u (uploads (HandleRequest (mkEvent "archive") (scenarioA, None)
                                (fun _ => None))))
    by (rewrite E; left; reflexivity).
  split; [left; reflexivity|].
  destruct (handler_upload_origin (mkEvent "archive") scenarioA None (fun _ => None) u Hu)
    as [first [rest [s [H1 [H2 H3]]]]].
  exists first, rest, s. split; [exact H1|split; [exact H2|exact H3]].
Defined.

Lemma fetchAllMonitorData_limit_witness :
  (forall input : ScanInput,
     (List.length (fst ((fun input => (firstn (Z.to_nat (Limit input)) scenarioA, None))
                         input : list MonitorData * option error))
      <= Z.to_nat (Limit input))%nat)
  /\ (List.length (fst (fetchAllMonitorData (fun _ => None)
                         (fun input => (firstn (Z.to_nat (Limit input)) scenarioA, None))
                         (fun item => (item, None)) (fst (Parse "2024-03-01T10:10:00Z"))))
      <= 1000)%nat.
Proof.
  assert (Hs : forall input : ScanInput,
     (List.length (fst ((fun input => (firstn (Z.to_nat (Limit input)) scenarioA, None))
                         input : list MonitorData * option error))
      <= Z.to_nat (Limit input))%nat)
    by (intro input; cbn [fst]; rewrite length_firstn; lia).
  split; [exact Hs|].
  exact (proj1 (fetchAllMonitorData_limit (fun _ => None) _ (fun item => (item, None))
                   (fst (Parse "2024-03-01T10:10:00Z")) Hs)).
Defined.

Lemma roundUp_ceil_witness :
  0 < FILE_DURATION
  /\ unix_ns (roundUp (parsed (rec "m1" "2024-03-01T10:07:10Z" "1")) FILE_DURATION)
     - unix_ns zeroTime
     = - (- (unix_ns (parsed (rec "m1" "2024-03-01T10:07:10Z" "1")) - unix_ns zeroTime)
          / FILE_DURATION) * FILE_DURATION.
Proof.
  split; [reflexivity|].
  apply (roundUp_ceil (parsed (rec "m1" "2024-03-01T10:07:10Z" "1")) FILE_DURATION
           (eq_refl : 0 < FILE_DURATION)).
Defined.

Lemma compileMonitorData_start_time_roundtrip_witness :
  exists calls chunk s, compileMonitorData scenarioA = Some calls /\ In (chunk, s) calls
  /\ (-86400 < zone_off s < 86400)
  /\ (-719528 * 86400 <= unix_ns s / Second + zone_off s < 2932897 * 86400)
  /\ Parse (Format s) = (s, None).
Proof.
  destruct (compileMonitorData scenarioA) as [calls|] eqn:E; [|vm_compute in E; discriminate].
  destruct calls as [|[chunk s] cs]; [vm_compute in E; discriminate|].
  assert (Hzb : -86400 < zone_off s < 86400).
  { pose proof E as E'. vm_compute in E'. injection E' as _ <- _.
    vm_compute. split; reflexivity. }
  assert (Hr : -719528 * 86400 <= unix_ns s / Second + zone_off s < 2932897 * 86400).
  { pose proof E as E'. vm_compute in E'. injection E' as _ <- _.
    vm_compute. split; [discriminate|reflexivity]. }
  exists ((chunk, s) :: cs), chunk, s.
  split; [reflexivity|]. split; [left; reflexivity|].
  split; [exact Hzb|]. split; [exact Hr|].
  exact (compileMonitorData_start_time_roundtrip scenarioA _ chunk s E (or_introl eq_refl)
           Hzb Hr).
Defined.
